(** * course-scraper: a shallow embedding of [scraper.py]

    The script crawls a course catalogue in three nested loops
    (category, subject, course block), parses every course block into a
    five-field tuple, and inserts the tuples whose code is not yet known
    into the table [Classes], one hundred at a time.

    Layout of this development:
    - [PyStr]: the [str] methods and the one regular expression the script
      uses, on strings of code points U+0000..U+00FF;
    - [bs4]: the part of the BeautifulSoup tree API the script calls;
    - exceptions, the process state and the state-and-exception monad;
    - the functions of [scraper.py], in source order;
    - fixtures, lemmas and the theorems about the program. *)

From Stdlib Require Import String Ascii List NArith Arith Lia.
From stdpp Require Import base strings gmap list.

Local Open Scope string_scope.
Local Open Scope list_scope.
Local Open Scope nat_scope.

(** ** Python [str] *)

(** A character is a code point below 256 (Latin-1), held in an [ascii];
    a [str] is a [string].  The classification tables below are the
    restrictions of Python's to this range. *)
Module PyStr.

Definition ord (c : ascii) : N := N_of_ascii c.

(** [str.isnumeric]: Numeric_Type is Decimal, Digit or Numeric.  Below
    256 these are 0-9, the superscripts 2, 3 and 1, and the three vulgar
    fractions. *)
Definition isnumeric (c : ascii) : bool :=
  let n := ord c in
  ((48 <=? n) && (n <=? 57) || (n =? 178) || (n =? 179) || (n =? 185)
   || (n =? 188) || (n =? 189) || (n =? 190))%N.

(** [str.isspace], also the class [\s] of [re] on [str] patterns: tab to
    carriage return, the four separators U+001C..U+001F, space, NEL and
    the no-break space. *)
Definition isspace (c : ascii) : bool :=
  let n := ord c in
  ((9 <=? n) && (n <=? 13) || (28 <=? n) && (n <=? 32)
   || (n =? 133) || (n =? 160))%N.

(** The no-break space U+00A0. *)
Definition nbsp : ascii := "160"%char.

Fixpoint lstrip (s : string) : string :=
  match s with
  | String c s' => if isspace c then lstrip s' else s
  | EmptyString => EmptyString
  end.

Fixpoint rstrip (s : string) : string :=
  match s with
  | String c s' =>
      match rstrip s' with
      | EmptyString => if isspace c then EmptyString else String c EmptyString
      | r => String c r
      end
  | EmptyString => EmptyString
  end.

(** [s.strip()] *)
Definition strip (s : string) : string := rstrip (lstrip s).

(** [sep.join(l)] *)
Fixpoint join (sep : string) (l : list string) : string :=
  match l with
  | [] => ""
  | [x] => x
  | x :: l' => x +:+ sep +:+ join sep l'
  end.

(** [s.startswith(p)] *)
Definition startswith (p s : string) : bool := String.prefix p s.

(** [sub in s] *)
Fixpoint contains (sub s : string) : bool :=
  String.prefix sub s
  || match s with
     | String _ s' => contains sub s'
     | EmptyString => false
     end.

(** The class [[\s\xa0]] of the pattern in [extract_course_info]. *)
Definition ws_class (c : ascii) : bool := isspace c || Ascii.eqb c nbsp.

(** [re.sub(r'[\s\xa0]+', ' ', text)].  The scan goes left to right; at
    a character of the class the greedy [+] consumes the whole run and
    one space is emitted for it; any other character is copied.
    [in_match] tells that the scan is inside a run already replaced. *)
Fixpoint re_sub_scan (in_match : bool) (text : string) : string :=
  match text with
  | String c rest =>
      if ws_class c
      then if in_match then re_sub_scan true rest
           else String " " (re_sub_scan true rest)
      else String c (re_sub_scan false rest)
  | EmptyString => EmptyString
  end.

Definition re_sub_ws (text : string) : string := re_sub_scan false text.

End PyStr.

(** ** BeautifulSoup *)

(** A parsed document is a tree of tags whose children are strings
    ([NavigableString]) or tags.  Of the attributes only [id], [class]
    (multi-valued) and [href] are read by the script. *)
Module bs4.

#[warnings="-register-all"] Inductive Tag : Type :=
  mkTag (name : string) (id : option string) (class_ : list string)
        (href : option string) (contents : list (string + Tag)).

Definition name (t : Tag) : string := let (n, _, _, _, _) := t in n.
Definition id (t : Tag) : option string := let (_, i, _, _, _) := t in i.
Definition class_ (t : Tag) : list string := let (_, _, c, _, _) := t in c.
Definition href (t : Tag) : option string := let (_, _, _, h, _) := t in h.
Definition contents (t : Tag) : list (string + Tag) :=
  let (_, _, _, _, c) := t in c.

(** [tag.descendants]: every node below [t], in document order. *)
Fixpoint descendants (t : Tag) : list (string + Tag) :=
  match t with
  | mkTag _ _ _ _ cs =>
      flat_map (fun c => match c with
                         | inl s => [inl s]
                         | inr t' => inr t' :: descendants t'
                         end) cs
  end.

Definition tags (l : list (string + Tag)) : list Tag :=
  omap (fun c => match c with inr t => Some t | inl _ => None end) l.

Definition strings (l : list (string + Tag)) : list string :=
  omap (fun c => match c with inl s => Some s | inr _ => None end) l.

(** [tag.find_all(name)] *)
Definition find_all (n : string) (t : Tag) : list Tag :=
  filter (fun t' => name t' = n) (tags (descendants t)).

(** [tag.find_all(name, class_=c)]: a tag matches when [c] is one of
    its CSS classes. *)
Definition find_all_class (n c : string) (t : Tag) : list Tag :=
  filter (fun t' => name t' = n ∧ c ∈ class_ t') (tags (descendants t)).

(** [tag.find(name)], [tag.find(name, class_=c)], [tag.find(name, id=i)]:
    the first match in document order, or [None]. *)
Definition find (n : string) (t : Tag) : option Tag := head (find_all n t).

Definition find_class (n c : string) (t : Tag) : option Tag :=
  head (find_all_class n c t).

Definition find_id (n i : string) (t : Tag) : option Tag :=
  head (filter (fun t' => name t' = n ∧ id t' = Some i) (tags (descendants t))).

(** [tag.get_text()]: all strings below the tag, concatenated. *)
Definition get_text (t : Tag) : string :=
  PyStr.join "" (strings (descendants t)).

(** [tag.get_text(strip=True)]: each string below the tag is stripped
    on its own, strings left empty are dropped, the rest is
    concatenated. *)
Definition get_text_strip (t : Tag) : string :=
  PyStr.join ""
    (filter (fun s => s ≠ "") (map PyStr.strip (strings (descendants t)))).

End bs4.

Arguments bs4.find : simpl never.
Arguments bs4.find_all : simpl never.
Arguments bs4.find_class : simpl never.
Arguments bs4.find_all_class : simpl never.
Arguments bs4.find_id : simpl never.
Arguments bs4.get_text : simpl never.
Arguments bs4.get_text_strip : simpl never.

(** ** Exceptions, the process state, and the monad of the script *)

(** The exceptions the script can meet.  [ConnectionError] stands for any
    [requests.exceptions.RequestException] raised by [requests.get]
    itself; [HTTPError], one of its subclasses, is raised by
    [raise_for_status]; [AttributeError] is what an attribute access on
    [None] raises; [ValueError] is what [urljoin] raises on a reference
    it cannot parse, such as one with an unclosed bracket in the host;
    [pyodbc_Error] is what
    [cursor.executemany] or [conn.commit] raises. *)
Inductive Exception : Type :=
  | ConnectionError
  | HTTPError (status_code : nat)
  | AttributeError
  | ValueError
  | pyodbc_Error.

Definition is_HTTPError (e : Exception) : bool :=
  match e with HTTPError _ => true | _ => false end.

Definition is_RequestException (e : Exception) : bool :=
  match e with
  | ConnectionError | HTTPError _ => true
  | AttributeError | ValueError | pyodbc_Error => false
  end.

Inductive Outcome (A : Type) : Type :=
  | Return (a : A)
  | Raise (e : Exception).
Arguments Return {A} a.
Arguments Raise {A} e.

#[global] Instance Outcome_ret : MRet Outcome := fun A a => Return a.
#[global] Instance Outcome_bind : MBind Outcome := fun A B f m =>
  match m with
  | Return a => f a
  | Raise e => Raise e
  end.

(** [try: m except: h] inside an expression that touches no state. *)
Definition try_bare {A} (m : Outcome A) (h : A) : A :=
  match m with
  | Return a => a
  | Raise _ => h
  end.

(** An attribute access [o.attr] on the result of a [find]: on [None]
    it raises [AttributeError]. *)
Definition attribute_of {A} (o : option A) : Outcome A :=
  match o with
  | Some a => Return a
  | None => Raise AttributeError
  end.

(** The tuple [(code, name, credits, description, attributes)]. *)
Record Course : Type := mkCourse {
  code : string;
  name : string;
  credits : string;
  description : string;
  attributes : string
}.

(** One record per [logging] call of the script, with the values its
    message is formatted from. *)
Inductive LogRecord : Type :=
  | info_fetched_category_links (n : nat)
  | warning_no_category_links
  | error_fetching_category_links (e : Exception)
  | info_fetched_subject_links (n : nat) (category : string)
  | error_http_fetching_subject_links (category : string) (e : Exception)
  | error_fetching_subject_links (category : string) (e : Exception)
  | warning_no_courses (subject : string)
  | info_prepared_entry (code name : string)
  | info_already_in_database (code name : string)
  | info_inserted (n : nat) (last_code : string)
  | error_processing_course (subject : string) (e : Exception)
  | error_request_processing (category : string) (e : Exception)
  | error_processing_row (category : string) (e : Exception)
  | info_inserted_remaining (n : nat) (last_code : string)
  | info_total_added (counter : nat).

Record Response : Type := mkResponse {
  status_code : nat;
  soup : bs4.Tag
}.

(** The state of the process: the log stream, the locals [counter],
    [batch] and [existing_codes] of [main], and the list of batches that
    [insert_courses] and [conn.commit] took without raising, oldest
    first. *)
Record Process : Type := mkProcess {
  log : list LogRecord;
  counter : nat;
  batch : list Course;
  existing_codes : gset string;
  inserted : list (list Course)
}.

(** What the run sees of the outside world.  [requests_get url] is [None]
    when [requests.get] raises, and otherwise the response with its body
    already parsed by [BeautifulSoup(response.text, 'html.parser')].
    [urljoin base reference] is [urllib.parse.urljoin] on two strings,
    [None] when it raises [ValueError].  [Classes] is the answer to
    [SELECT Code FROM Classes].  [accepts p courses] tells whether
    [cursor.executemany] with the rows [courses] and the [conn.commit]
    after it complete, in a process that has come to the state [p]; when
    it is [false] one of the two raises.  What a refused insert leaves
    behind in the open transaction is not modelled: [inserted] lists the
    batches that went through.  The pause after each request has no
    counterpart here, and the connection, the cursor and the [SELECT] at
    start are taken as working. *)
Record Env : Type := mkEnv {
  requests_get : string → option Response;
  urljoin : string → string → option string;
  Classes : list string;
  accepts : Process → list Course → bool
}.

Definition M (A : Type) : Type := Process → Outcome A * Process.

#[global] Instance M_ret : MRet M := fun A a p => (Return a, p).
#[global] Instance M_bind : MBind M := fun A B f m p =>
  match m p with
  | (Return a, p') => f a p'
  | (Raise e, p') => (Raise e, p')
  end.

(** A computation that reads no state. *)
Definition lift {A} (o : Outcome A) : M A := fun p => (o, p).

(** [try: m except ...: h e]: [h e] is [None] when no [except] clause
    matches [e].  The state reached when [e] was raised is kept. *)
Definition try_except {A} (m : M A) (h : Exception → option (M A)) : M A :=
  fun p =>
    match m p with
    | (Return a, p') => (Return a, p')
    | (Raise e, p') =>
        match h e with
        | Some handler => handler p'
        | None => (Raise e, p')
        end
    end.

(** [for x in l: body x] *)
Fixpoint for_each {A} (l : list A) (body : A → M unit) : M unit :=
  match l with
  | [] => mret tt
  | x :: l' => body x ≫= λ _, for_each l' body
  end.

Definition logging (r : LogRecord) : M unit := fun p =>
  (Return tt,
   mkProcess (log p ++ [r]) (counter p) (batch p) (existing_codes p) (inserted p)).

Definition get {A} (f : Process → A) : M A := fun p => (Return (f p), p).

Definition set_counter (n : nat) : M unit := fun p =>
  (Return tt, mkProcess (log p) n (batch p) (existing_codes p) (inserted p)).

Definition set_batch (b : list Course) : M unit := fun p =>
  (Return tt, mkProcess (log p) (counter p) b (existing_codes p) (inserted p)).

Definition set_existing_codes (s : gset string) : M unit := fun p =>
  (Return tt, mkProcess (log p) (counter p) (batch p) s (inserted p)).

(** The state of a process that has not run yet. *)
Definition fresh : Process := mkProcess [] 0 [] ∅ [].

(** ** The functions of [scraper.py] *)

Definition BASE_URL : string :=
  "https://bulletins.psu.edu/university-course-descriptions/".

Definition BATCH_SIZE : nat := 100.

(** [response.raise_for_status()] *)
Definition raise_for_status (r : Response) : Outcome unit :=
  if ((400 <=? status_code r) && (status_code r <? 600))%nat
  then Raise (HTTPError (status_code r))
  else Return tt.
Arguments raise_for_status : simpl never.

(** The loop over [credit_text] of [extract_course_info]: it leaves at
    the first character that is not numeric and appends the others to
    [credit_nums]. *)
Fixpoint credit_loop (credit_text : string) (credit_nums : list ascii) : list ascii :=
  match credit_text with
  | String char rest =>
      if negb (PyStr.isnumeric char) then credit_nums
      else credit_loop rest (credit_nums ++ [char])
  | EmptyString => credit_nums
  end.

Definition credit_hours_of (credit_text : string) : string :=
  string_of_list_ascii (credit_loop credit_text []).

(** The loop over [attributes_paragraphs]. *)
Fixpoint attributes_loop (attributes_paragraphs : list bs4.Tag)
    (attributes_list : list string) : list string :=
  match attributes_paragraphs with
  | attribute :: rest =>
      let text := bs4.get_text attribute in
      if negb (PyStr.contains "Objective" text)
      then let clean_text := PyStr.re_sub_ws text in
           attributes_loop rest (attributes_list ++ [PyStr.strip clean_text])
      else attributes_loop rest attributes_list
  | [] => attributes_list
  end.

Definition extract_course_info (course : bs4.Tag) : Outcome Course :=
  details_div ← attribute_of (bs4.find_class "div" "courseblocktitle_bubble" course);
  course_code ← attribute_of (bs4.find_class "div" "course_code" details_div);
  let code := PyStr.join " " (map bs4.get_text (bs4.find_all "span" course_code)) in
  course_codetitle ← attribute_of (bs4.find_class "div" "course_codetitle" details_div);
  let name := bs4.get_text_strip course_codetitle in
  course_credits ← attribute_of (bs4.find_class "div" "course_credits" details_div);
  let credit_text := bs4.get_text_strip course_credits in
  let credit_hours := credit_hours_of credit_text in
  let description :=
    try_bare
      (courseblockdesc ← attribute_of (bs4.find_class "div" "courseblockdesc" course);
       p ← attribute_of (bs4.find "p" courseblockdesc);
       mret (bs4.get_text_strip p))
      "N/A" in
  let attributes :=
    try_bare
      (courseblockextra ← attribute_of (bs4.find_class "div" "courseblockextra" course);
       let attributes_paragraphs := bs4.find_all "p" courseblockextra in
       let attributes_list := attributes_loop attributes_paragraphs [] in
       mret (PyStr.join ", " attributes_list +:+ " "))
      "N/A" in
  mret (mkCourse code name credit_hours description attributes).

(** [batch[-1][0]] *)
Definition last_code (b : list Course) : string :=
  match last b with
  | Some c => code c
  | None => ""
  end.

Section Program.

Variable env : Env.

(** [requests.get(url)] *)
Definition get_url (url : string) : Outcome Response :=
  match requests_get env url with
  | Some r => Return r
  | None => Raise ConnectionError
  end.

(** [urljoin(base, reference)] on two strings. *)
Definition py_urljoin (base reference : string) : Outcome string :=
  match urljoin env base reference with
  | Some url => Return url
  | None => Raise ValueError
  end.

(** [urljoin(base, link.find('a').get('href'))]: [urljoin] gives back
    the base (never empty here) when the second argument is [None]. *)
Definition urljoin_href (base : string) (a : bs4.Tag) : Outcome string :=
  match bs4.href a with
  | Some h => py_urljoin base h
  | None => Return base
  end.

(** The list comprehension of [fetch_category_links] over the [li]
    elements, in order: an item without a link is left out, and the
    first reference [urljoin] cannot parse ends the comprehension. *)
Fixpoint category_links_of (base_url : string) (lis : list bs4.Tag) : Outcome (list string) :=
  match lis with
  | link :: rest =>
      match bs4.find "a" link with
      | Some a =>
          url ← urljoin_href base_url a;
          links ← category_links_of base_url rest;
          mret (url :: links)
      | None => category_links_of base_url rest
      end
  | [] => mret []
  end.

Definition fetch_category_links (base_url : string) : M (list string) :=
  try_except
    (response ← lift (get_url base_url);
     _ ← lift (raise_for_status response);
     match bs4.find_id "ul" "/university-course-descriptions/" (soup response) with
     | Some links =>
         category_links ← lift (category_links_of base_url (bs4.find_all "li" links));
         _ ← logging (info_fetched_category_links (length category_links));
         mret category_links
     | None =>
         _ ← logging warning_no_category_links;
         mret []
     end)
    (fun e =>
       if is_RequestException e
       then Some (_ ← logging (error_fetching_category_links e); mret [])
       else None).

(** The list comprehension of [fetch_subject_links] over the [li]
    elements, in order: an item without a link is left out, a link
    without [href] raises at [startswith], and a reference [urljoin]
    cannot parse raises there. *)
Fixpoint subject_links_of (category : string) (lis : list bs4.Tag) : Outcome (list string) :=
  match lis with
  | li :: rest =>
      match bs4.find "a" li with
      | Some a =>
          h ← attribute_of (bs4.href a);
          if negb (PyStr.startswith "#" h)
          then (url ← py_urljoin category h;
                links ← subject_links_of category rest;
                mret (url :: links))
          else subject_links_of category rest
      | None => subject_links_of category rest
      end
  | [] => mret []
  end.

Definition fetch_subject_links (category : string) : M (list string) :=
  try_except
    (response ← lift (get_url category);
     _ ← lift (raise_for_status response);
     az_sitemap ← lift (attribute_of (bs4.find_class "div" "az_sitemap" (soup response)));
     let ul_elements := bs4.find_all "ul" az_sitemap in
     subject_links ← lift (subject_links_of category
                             (flat_map (bs4.find_all "li") ul_elements));
     _ ← logging (info_fetched_subject_links (length subject_links) category);
     mret subject_links)
    (fun e =>
       if is_HTTPError e
       then Some (_ ← logging (error_http_fetching_subject_links category e); mret [])
       else Some (_ ← logging (error_fetching_subject_links category e); mret [])).

Definition fetch_courses (subject : string) : Outcome (list bs4.Tag) :=
  response ← get_url subject;
  _ ← raise_for_status response;
  sc_sccoursedescs ← attribute_of (bs4.find_class "div" "sc_sccoursedescs" (soup response));
  mret (bs4.find_all_class "div" "courseblock" sc_sccoursedescs).

(** Lines 154-160 of [main]: the record is appended, counted and its
    code made known, unless the code is known already. *)
Definition stage_if_new (c : Course) : M unit := fun p =>
  if bool_decide (code c ∉ existing_codes p)
  then (Return tt,
        mkProcess (log p ++ [info_prepared_entry (code c) (name c)])
          (counter p + 1) (batch p ++ [c]) (existing_codes p ∪ {[code c]})
          (inserted p))
  else logging (info_already_in_database (code c) (name c)) p.

(** [insert_courses(c, batch)] followed by [conn.commit()]: when the
    driver raises, nothing is recorded. *)
Definition insert_courses (courses : list Course) : M unit := fun p =>
  if accepts env p courses
  then (Return tt,
        mkProcess (log p) (counter p) (batch p) (existing_codes p)
          (inserted p ++ [courses]))
  else (Raise pyodbc_Error, p).

(** Lines 162-166 of [main]: when the insert or the commit raises, the
    batch is not cleared. *)
Definition flush_if_full : M unit := fun p =>
  if (BATCH_SIZE <=? length (batch p))%nat
  then (_ ← insert_courses (batch p);
        _ ← logging (info_inserted (length (batch p)) (last_code (batch p)));
        set_batch []) p
  else (Return tt, p).

(** The body of [for course in courses]. *)
Definition process_course (course : bs4.Tag) : M unit :=
  c ← lift (extract_course_info course);
  _ ← stage_if_new c;
  flush_if_full.

(** The body of [for subject in subjects], with its [try]. *)
Definition process_subject (subject : string) : M unit :=
  try_except
    (courses ← lift (fetch_courses subject);
     match courses with
     | [] => logging (warning_no_courses subject)
     | _ => for_each courses process_course
     end)
    (fun e => Some (logging (error_processing_course subject e))).

(** The body of [for category in category_links], with its [try]. *)
Definition process_category (category : string) : M unit :=
  try_except
    (subjects ← fetch_subject_links category;
     for_each subjects process_subject)
    (fun e =>
       if is_RequestException e
       then Some (logging (error_request_processing category e))
       else Some (logging (error_processing_row category e))).

(** Lines 177-180 of [main], outside every [try]. *)
Definition flush_remainder : M unit := fun p =>
  match batch p with
  | [] => (Return tt, p)
  | _ => (_ ← insert_courses (batch p);
          logging (info_inserted_remaining (length (batch p)) (last_code (batch p)))) p
  end.

(** The traversal: lines 134-175 of [main]. *)
Definition traverse : M unit :=
  category_links ← fetch_category_links BASE_URL;
  _ ← set_counter 0;
  _ ← set_batch [];
  _ ← set_existing_codes
        (fold_left (fun s row => s ∪ {[row]}) (Classes env) ∅);
  for_each category_links process_category.

Definition main : M unit :=
  _ ← traverse;
  _ ← flush_remainder;
  c ← get counter;
  logging (info_total_added c).

End Program.

(** ** Notions the statements are phrased in *)

(** [r] is the maximal leading run of numeric characters of [s]: a prefix
    of [s], numeric throughout, and followed in [s] by nothing or by a
    character that is not numeric. *)
Definition leading_numeric_run (s r : string) : Prop :=
  ∃ rest,
    s = r +:+ rest
    ∧ Forall (fun c => PyStr.isnumeric c = true) (list_ascii_of_string r)
    ∧ match rest with
      | String c _ => PyStr.isnumeric c = false
      | EmptyString => True
      end.

(** The maximal runs of a text, each with the flag that it is a run of
    white space (in the sense of the class [[\s\xa0]]). *)
Fixpoint runs (s : string) : list (bool * string) :=
  match s with
  | String c s' =>
      match runs s' with
      | (w, r) :: rs =>
          if Bool.eqb w (PyStr.ws_class c) then (w, String c r) :: rs
          else (PyStr.ws_class c, String c "") :: (w, r) :: rs
      | [] => [(PyStr.ws_class c, String c "")]
      end
  | EmptyString => []
  end.

(** What a run contributes to the collapsed text: one space for a run
    of white space, the run itself otherwise. *)
Definition piece (wr : bool * string) : string :=
  if wr.1 then " " else wr.2.

(** A text with every run of white space collapsed into one space. *)
Definition collapse_whitespace (s : string) : string :=
  PyStr.join "" (map piece (runs s)).

(** Neighbouring runs are of different kinds. *)
Fixpoint alternating (l : list (bool * string)) : Prop :=
  match l with
  | (w, _) :: (((w', _) :: _) as l') => w ≠ w' ∧ alternating l'
  | _ => True
  end.

(** The text of a tag, trimmed as a whole. *)
Definition trimmed_text (t : bs4.Tag) : string := PyStr.strip (bs4.get_text t).

(** The paragraphs of the extra block that do not mention "Objective". *)
Definition qualifying (paragraphs : list bs4.Tag) : list bs4.Tag :=
  filter (fun p => PyStr.contains "Objective" (bs4.get_text p) = false) paragraphs.

(** A state with log records appended. *)
Definition add_logs (rs : list LogRecord) (p : Process) : Process :=
  mkProcess (log p ++ rs) (counter p) (batch p) (existing_codes p) (inserted p).

(** The state without the log stream: what a run leaves behind. *)
Definition vars (p : Process) : nat * list Course * gset string * list (list Course) :=
  (counter p, batch p, existing_codes p, inserted p).

(** The log records a fetcher writes. *)
Definition emitted {A} (m : M A) : list LogRecord := log (m fresh).2.

(** The list a fetcher hands to [main]. *)
Definition fetched {A} (m : M (list A)) : list A :=
  match (m fresh).1 with
  | Return l => l
  | Raise _ => []
  end.

(** What [fetch_category_links] hands to [main]: the category links, or
    the exception it lets through. *)
Definition catalog (env : Env) : Outcome (list string) :=
  (fetch_category_links env BASE_URL fresh).1.

(** The records parsed from the blocks of a page, up to the first block
    on which the parser raises. *)
Fixpoint parsed (courses : list bs4.Tag) : list Course :=
  match courses with
  | course :: rest =>
      match extract_course_info course with
      | Return c => c :: parsed rest
      | Raise _ => []
      end
  | [] => []
  end.

Definition subject_records (env : Env) (subject : string) : list Course :=
  match fetch_courses env subject with
  | Return courses => parsed courses
  | Raise _ => []
  end.

(** The records the traversal parses, in the order it meets them. *)
Definition traversal_records (env : Env) : list Course :=
  category ← fetched (fetch_category_links env BASE_URL);
  subject ← fetched (fetch_subject_links env category);
  subject_records env subject.

(** Staging and flush check for a list of records, as the course loop
    does for each parsed record. *)
Definition stage_all (env : Env) (cs : list Course) : M unit :=
  for_each cs (fun c => _ ← stage_if_new c; flush_if_full env).

(** The locals of [main] when the first category is entered. *)
Definition known_codes (env : Env) : gset string :=
  fold_left (fun s row => s ∪ {[row]}) (Classes env) ∅.

Definition start (env : Env) : Process :=
  mkProcess [] 0 [] (known_codes env) [].

(** The state after the first [k] records of the traversal. *)
Definition after (env : Env) (k : nat) : Process :=
  (stage_all env (take k (traversal_records env)) (start env)).2.

(** What the flush check keeps true of the locals: the batch is below
    the threshold, every batch inserted so far had exactly the threshold
    size, and the counter is the number of records inserted or pending. *)
Definition flush_inv (p : Process) : Prop :=
  length (batch p) < BATCH_SIZE
  ∧ Forall (fun b => length b = BATCH_SIZE) (inserted p)
  ∧ counter p = BATCH_SIZE * length (inserted p) + length (batch p).

(** The same site, with the table as a first run leaves it. *)
Definition rerun (env : Env) : Env :=
  mkEnv (requests_get env) (urljoin env)
    (Classes env ++ map code (concat (inserted (main env fresh).2)))
    (accepts env).

(** The known codes are those read at start and those of the records
    inserted or pending. *)
Definition codes_inv (env : Env) (p : Process) : Prop :=
  ∀ x, x ∈ existing_codes p
       ↔ x ∈ Classes env ∨ x ∈ map code (concat (inserted p) ++ batch p).

(** A driver that accepts every batch: no insert and no commit raises. *)
Definition reliable (env : Env) : Prop :=
  ∀ p courses, accepts env p courses = true.

(** The initial request fails: [requests.get] raises, or the status is
    an error status. *)
Definition request_fails (env : Env) (url : string) : Prop :=
  match requests_get env url with
  | None => True
  | Some r => raise_for_status r ≠ Return tt
  end.

(** A page that is served with a good status. *)
Definition served (env : Env) (url : string) (r : Response) : Prop :=
  requests_get env url = Some r ∧ raise_for_status r = Return tt.

(** The catalogue page is served and lists no category. *)
Definition empty_catalog (env : Env) : Prop :=
  ∃ r, served env BASE_URL r
       ∧ match bs4.find_id "ul" "/university-course-descriptions/" (soup r) with
         | Some links =>
             Forall (fun li => bs4.find "a" li = None) (bs4.find_all "li" links)
         | None => True
         end.

(** ** Fixtures: small pages and sites *)

Module Fixture.

Definition el (n : string) (cls : list string) (cs : list (string + bs4.Tag)) : bs4.Tag :=
  bs4.mkTag n None cls None cs.

Definition a_href (h : string) (label : string) : bs4.Tag :=
  bs4.mkTag "a" None [] (Some h) [inl label].

Definition title_bubble (subj num title credit_text : string) : bs4.Tag :=
  el "div" ["courseblocktitle_bubble"]
    [inr (el "div" ["course_code"]
            [inr (el "span" [] [inl subj]); inr (el "span" [] [inl num])]);
     inr (el "div" ["course_codetitle"] [inl title]);
     inr (el "div" ["course_credits"] [inl credit_text])].

(** A course block with a title only. *)
Definition block (subj num title credit_text : string) : bs4.Tag :=
  el "div" ["courseblock"] [inr (title_bubble subj num title credit_text)].

(** A course block with a title, a description block and an extra block. *)
Definition full_block (subj num title credit_text : string)
    (desc extra : list (string + bs4.Tag)) : bs4.Tag :=
  el "div" ["courseblock"]
    [inr (title_bubble subj num title credit_text);
     inr (el "div" ["courseblockdesc"] desc);
     inr (el "div" ["courseblockextra"] extra)].

Definition para (cs : list (string + bs4.Tag)) : string + bs4.Tag :=
  inr (el "p" [] cs).

(** The extra block is there and holds nothing. *)
Definition course_empty_extra : bs4.Tag :=
  full_block "CS" "101" "Intro" "3 Credits" [para [inl "Basics."]] [].

(** Both paragraphs of the extra block mention "Objective". *)
Definition course_objectives_only : bs4.Tag :=
  full_block "CS" "101" "Intro" "3 Credits" [para [inl "Basics."]]
    [para [inl "Learning Objective: recursion"];
     para [inl "General Education Objective: reasoning"]].

(** Two attribute paragraphs around an "Objective" one; the first has
    two no-break spaces in a row. *)
Definition course_with_attributes : bs4.Tag :=
  full_block "CS" "101" "Intro" "3 Credits" [para [inl "Basics."]]
    [para [inl ("Prerequisite: X" +:+ String PyStr.nbsp (String PyStr.nbsp "Y"))];
     para [inl "Learning Objective: recursion"];
     para [inl "  Cross-listed  with:
 MATH 101 "]].

Definition record_with_attributes : Course :=
  mkCourse "CS 101" "Intro" "3" "Basics."
    "Prerequisite: X Y, Cross-listed with: MATH 101 ".

Definition record_blank_attributes : Course :=
  mkCourse "CS 101" "Intro" "3" "Basics." " ".

(** The description paragraph holds three strings: text, a link, text. *)
Definition course_linked_description : bs4.Tag :=
  full_block "CS" "102" "Data" "3 Credits"
    [para [inl "Builds on "; inr (a_href "/cs101" "CS 101"); inl " and more. "]]
    [].

(** The description paragraph holds one string. *)
Definition course_plain_description : bs4.Tag :=
  full_block "CS" "103" "Logic" "3 Credits" [para [inl "  Proofs and programs. "]] [].

(** No description block at all. *)
Definition course_no_description : bs4.Tag := block "CS" "104" "Nets" "3 Credits".

Definition page (cs : list (string + bs4.Tag)) : Response :=
  mkResponse 200 (el "[document]" [] cs).

Definition catalog_page (hrefs : list string) : Response :=
  page [inr (bs4.mkTag "ul" (Some "/university-course-descriptions/") [] None
               (map (fun h => inr (el "li" [] [inr (a_href h h)])) hrefs))].

Definition category_page (hrefs : list string) : Response :=
  page [inr (el "div" ["az_sitemap"]
               [inr (el "ul" [] (map (fun h => inr (el "li" [] [inr (a_href h h)])) hrefs))])].

Definition subject_page (blocks : list bs4.Tag) : Response :=
  page [inr (el "div" ["sc_sccoursedescs"] (map inr blocks))].

(** A site as an association list from URL to response; a URL that is
    not listed cannot be reached. *)
Fixpoint serve (site : list (string * Response)) (url : string) : option Response :=
  match site with
  | (u, r) :: site' => if String.eqb u url then Some r else serve site' url
  | [] => None
  end.

(** All links of the fixtures are absolute, so joining keeps the link;
    the driver accepts every batch. *)
Definition site_env (site : list (string * Response)) (rows : list string) : Env :=
  mkEnv (serve site) (fun _ h => Some h) rows (fun _ _ => true).

Definition three_blocks : list bs4.Tag :=
  [block "CS" "101" "Intro" "3 Credits";
   block "CS" "101" "Intro again" "3 Credits";
   block "MATH" "200" "Calculus" "1-3 Credits"].

(** One category, one subject, three course blocks. *)
Definition small_site : list (string * Response) :=
  [(BASE_URL, catalog_page ["/cat"]);
   ("/cat", category_page ["/subj"]);
   ("/subj", subject_page three_blocks)].

(** The subject page "/broken" has no course-description container; the
    subject after it is fine. *)
Definition site_broken_subject : list (string * Response) :=
  [(BASE_URL, catalog_page ["/cat"]);
   ("/cat", category_page ["/broken"; "/subj"]);
   ("/broken", page [inr (el "div" ["other"] [])]);
   ("/subj", subject_page three_blocks)].

(** The category page "/bare" has no site-map container; the category
    after it is fine. *)
Definition site_bare_category : list (string * Response) :=
  [(BASE_URL, catalog_page ["/bare"; "/cat"]);
   ("/bare", page [inr (el "p" [] [inl "Nothing here."])]);
   ("/cat", category_page ["/subj"]);
   ("/subj", subject_page three_blocks)].

(** The catalogue page is served and has no list of categories. *)
Definition site_no_categories : list (string * Response) :=
  [(BASE_URL, page [inr (el "p" [] [inl "Under construction."])])].

Definition cs_101 : Course := mkCourse "CS 101" "Intro" "3" "N/A" "N/A".
Definition cs_101_again : Course := mkCourse "CS 101" "Intro again" "3" "N/A" "N/A".
Definition math_200 : Course := mkCourse "MATH 200" "Calculus" "1" "N/A" "N/A".

(** The small site with a table that holds "CS 101" only, and with a
    table that holds both codes of the site. *)
Definition small_env : Env := site_env small_site ["CS 101"].
Definition populated_env : Env := site_env small_site ["CS 101"; "MATH 200"].

Definition broken_subject_env : Env := site_env site_broken_subject ["CS 101"].
Definition bare_category_env : Env := site_env site_bare_category ["CS 101"].
Definition no_categories_env : Env := site_env site_no_categories ["CS 101"].

(** No page can be reached. *)
Definition unreachable_env : Env := site_env [] ["CS 101"].

(** The catalogue answers with status 503. *)
Definition unavailable_env : Env :=
  site_env [(BASE_URL, mkResponse 503 (el "[document]" [] []))] ["CS 101"].

(** [n] course blocks with pairwise distinct codes. *)
Definition numbered_blocks (n : nat) : list bs4.Tag :=
  map (fun i => block "CS" (string_of_list_ascii (replicate i "x"%char)) "T" "3")
      (seq 0 n).

(** One subject page with 230 course blocks, none of them known. *)
Definition large_env : Env :=
  site_env [(BASE_URL, catalog_page ["/cat"]);
            ("/cat", category_page ["/subj"]);
            ("/subj", subject_page (numbered_blocks 230))] [].

End Fixture.

(** ** Notions for the further properties *)

(** The records a run stages out of a list: those whose code is not
    known when they are met, each making its code known. *)
Fixpoint new_records (known : gset string) (cs : list Course) : list Course :=
  match cs with
  | c :: cs' =>
      if bool_decide (code c ∈ known) then new_records known cs'
      else c :: new_records (known ∪ {[code c]}) cs'
  | [] => []
  end.

(** A list cut into consecutive groups of [n], the last one shorter when
    the length is no multiple of [n]; [fuel] bounds the number of
    groups. *)
Fixpoint chunks {A} (fuel n : nat) (l : list A) : list (list A) :=
  match fuel, l with
  | S fuel', _ :: _ => take n l :: chunks fuel' n (drop n l)
  | _, _ => []
  end.

(** The records appended to the batch so far, inserted or pending. *)
Definition staged (p : Process) : list Course :=
  concat (inserted p) ++ batch p.

(** The hrefs of the first link of the items that hold a link. *)
Definition anchor_hrefs (lis : list bs4.Tag) : list (option string) :=
  omap (fun li => bs4.href <$> bs4.find "a" li) lis.

(** What [urljoin] makes of a link of the catalogue page: the base when
    the link has no [href], nothing when it raises. *)
Definition href_joined (env : Env) (base : string) (a : bs4.Tag) : option string :=
  match bs4.href a with
  | Some h => urljoin env base h
  | None => Some base
  end.

(** The items a category page lists: every [li] below every [ul] of the
    site-map container. *)
Definition sitemap_items (az_sitemap : bs4.Tag) : list bs4.Tag :=
  flat_map (bs4.find_all "li") (bs4.find_all "ul" az_sitemap).

(** White space of a string is plain spaces only. *)
Definition only_plain_spaces (s : string) : Prop :=
  Forall (fun c => PyStr.ws_class c = true → c = " "%char)
         (list_ascii_of_string s).

(** The number of "Prepared entry" records of a log. *)
Definition is_prepared_entry (r : LogRecord) : bool :=
  match r with
  | info_prepared_entry _ _ => true
  | _ => false
  end.

Definition prepared_count (l : list LogRecord) : nat :=
  length (List.filter is_prepared_entry l).

(** The size and last code of the insertions a log reports. *)
Definition logged_inserts (l : list LogRecord) : list (nat * string) :=
  omap (fun r => match r with
                 | info_inserted n c | info_inserted_remaining n c => Some (n, c)
                 | _ => None
                 end) l.

(** A string that is not empty, starts with no white space, and loses
    nothing when stripped on the right. *)
Definition tight (s : string) : Prop :=
  match s with
  | String c _ => PyStr.isspace c = false ∧ PyStr.rstrip s = s
  | EmptyString => False
  end.

Arguments prepared_count : simpl never.
Arguments logged_inserts : simpl never.

(** What the log tells of the locals: as many "Prepared entry" records
    as the counter says, and one "Inserted" record per batch inserted,
    in order, with the size of the batch and the code of its last
    record. *)
Definition log_inv (p : Process) : Prop :=
  prepared_count (log p) = counter p
  ∧ logged_inserts (log p) = map (fun b => (length b, last_code b)) (inserted p).

(** What staging keeps true: the records staged so far have pairwise
    distinct codes, all of them known by now and none of them in the
    table read at start, whose codes are known as well. *)
Definition staged_inv (env : Env) (p : Process) : Prop :=
  NoDup (map code (staged p))
  ∧ (∀ c, c ∈ staged p → code c ∈ existing_codes p ∧ code c ∉ Classes env)
  ∧ (∀ x, x ∈ Classes env → x ∈ existing_codes p).

(** No batch inserted so far was empty. *)
Definition batches_nonempty (p : Process) : Prop :=
  Forall (fun b => b ≠ []) (inserted p).

(** A log record that reports neither a staged record nor an
    insertion. *)
Definition quiet (r : LogRecord) : Prop :=
  is_prepared_entry r = false ∧ logged_inserts [r] = [].

(** [m] keeps [I]: whatever state it is run in, and whether it returns
    or raises. *)
Definition preserves {A} (I : Process → Prop) (m : M A) : Prop :=
  ∀ p, I p → I (m p).2.

(** ** Further fixtures *)

Module Sample.

(** A block without title bubble, on which the parser raises. *)
Definition untitled_block : bs4.Tag :=
  Fixture.el "div" ["courseblock"]
    [inr (Fixture.el "div" ["courseblockdesc"] [Fixture.para [inl "No title."]])].

(** A subject page whose second block has no title. *)
Definition site_untitled_block : list (string * Response) :=
  [(BASE_URL, Fixture.catalog_page ["/cat"]);
   ("/cat", Fixture.category_page ["/subj"]);
   ("/subj", Fixture.subject_page
               [Fixture.block "CS" "101" "Intro" "3 Credits";
                untitled_block;
                Fixture.block "MATH" "200" "Calculus" "1-3 Credits"])].

Definition untitled_block_env : Env := Fixture.site_env site_untitled_block [].

(** The subject "/gone" cannot be reached; the subject after it can. *)
Definition site_subject_gone : list (string * Response) :=
  [(BASE_URL, Fixture.catalog_page ["/cat"]);
   ("/cat", Fixture.category_page ["/gone"; "/subj"]);
   ("/subj", Fixture.subject_page Fixture.three_blocks)].

Definition subject_gone_env : Env := Fixture.site_env site_subject_gone [].

(** The category "/teapot" answers with status 418, the category
    "/down" cannot be reached. *)
Definition site_categories_failing : list (string * Response) :=
  [(BASE_URL, Fixture.catalog_page ["/teapot"; "/down"; "/cat"]);
   ("/teapot", mkResponse 418 (Fixture.el "[document]" [] []));
   ("/cat", Fixture.category_page ["/subj"]);
   ("/subj", Fixture.subject_page Fixture.three_blocks)].

Definition categories_failing_env : Env :=
  Fixture.site_env site_categories_failing [].

(** A subject page whose container holds no course block. *)
Definition site_no_courses : list (string * Response) :=
  [(BASE_URL, Fixture.catalog_page ["/cat"]);
   ("/cat", Fixture.category_page ["/subj"]);
   ("/subj", Fixture.subject_page [])].

Definition no_courses_env : Env := Fixture.site_env site_no_courses [].

(** A site map with a same-page anchor, a subject link, and an item
    without link. *)
Definition sitemap_mixed : bs4.Tag :=
  Fixture.el "div" ["az_sitemap"]
    [inr (Fixture.el "ul" []
            [inr (Fixture.el "li" [] [inr (Fixture.a_href "#top" "Top")]);
             inr (Fixture.el "li" [] [inr (Fixture.a_href "/subj" "Subject")]);
             inr (Fixture.el "li" [] [inl "No link"])])].

(** A site map in which the second link has no [href]. *)
Definition sitemap_bare_link : bs4.Tag :=
  Fixture.el "div" ["az_sitemap"]
    [inr (Fixture.el "ul" []
            [inr (Fixture.el "li" [] [inr (Fixture.a_href "/subj" "Subject")]);
             inr (Fixture.el "li" []
                    [inr (bs4.mkTag "a" None [] None [inl "Nowhere"])])])].

Definition site_sitemaps : list (string * Response) :=
  [(BASE_URL, Fixture.catalog_page ["/mixed"; "/bare-link"]);
   ("/mixed", Fixture.page [inr sitemap_mixed]);
   ("/bare-link", Fixture.page [inr sitemap_bare_link]);
   ("/subj", Fixture.subject_page Fixture.three_blocks)].

Definition sitemaps_env : Env := Fixture.site_env site_sitemaps [].

(** [n] course blocks of the subject [subj] with pairwise distinct
    codes. *)
Definition numbered_blocks_of (subj : string) (n : nat) : list bs4.Tag :=
  map (fun i => Fixture.block subj
                  (string_of_list_ascii
                     (replicate (i / 16) "x"%char ++ replicate (i mod 16) "y"%char))
                  "T" "3")
      (seq 0 n).

(** Two subjects, with 150 and with 5 course blocks, none of them
    known. *)
Definition site_two_subjects : list (string * Response) :=
  [(BASE_URL, Fixture.catalog_page ["/cat"]);
   ("/cat", Fixture.category_page ["/a"; "/b"]);
   ("/a", Fixture.subject_page (numbered_blocks_of "CS" 150));
   ("/b", Fixture.subject_page (numbered_blocks_of "MATH" 5))].

(** A driver that refuses a batch of exactly 100 records and accepts
    every other. *)
Definition refusing_env : Env :=
  mkEnv (Fixture.serve site_two_subjects) (fun _ h => Some h) []
    (fun _ courses => negb (length courses =? 100)).

(** A join that cannot parse the reference with an unclosed bracket, and
    keeps every other reference. *)
Definition strict_join (base reference : string) : option string :=
  if String.eqb reference "http://[" then None else Some reference.

Definition strict_env (site : list (string * Response)) : Env :=
  mkEnv (Fixture.serve site) strict_join [] (fun _ _ => true).

(** The catalogue lists a category and then a link that cannot be
    parsed. *)
Definition site_malformed_catalog : list (string * Response) :=
  [(BASE_URL, Fixture.catalog_page ["/cat"; "http://["]);
   ("/cat", Fixture.category_page ["/subj"]);
   ("/subj", Fixture.subject_page Fixture.three_blocks)].

Definition malformed_catalog_env : Env := strict_env site_malformed_catalog.

(** The category "/odd" lists a subject and then a link that cannot be
    parsed; the category after it is fine. *)
Definition site_malformed_category : list (string * Response) :=
  [(BASE_URL, Fixture.catalog_page ["/odd"; "/cat"]);
   ("/odd", Fixture.category_page ["/subj"; "http://["]);
   ("/cat", Fixture.category_page ["/subj"]);
   ("/subj", Fixture.subject_page Fixture.three_blocks)].

Definition malformed_category_env : Env := strict_env site_malformed_category.

End Sample.

(** ** Credit hours *)

Lemma credit_loop_acc (credit_text : string) (acc : list ascii) :
  credit_loop credit_text acc = acc ++ credit_loop credit_text [].
Proof.
  revert acc. induction credit_text as [|c s IH]; intros acc; simpl.
  - by rewrite app_nil_r.
  - destruct (PyStr.isnumeric c); simpl; [|by rewrite app_nil_r].
    rewrite (IH (acc ++ [c])), (IH [c]). by rewrite <- app_assoc.
Qed.

Lemma credit_hours_of_cons (c : ascii) (s : string) :
  credit_hours_of (String c s)
  = if PyStr.isnumeric c then String c (credit_hours_of s) else "".
Proof.
  unfold credit_hours_of. simpl.
  destruct (PyStr.isnumeric c); simpl; [|done].
  by rewrite credit_loop_acc.
Qed.

Lemma credit_hours_is_run (s : string) :
  leading_numeric_run s (credit_hours_of s).
Proof.
  induction s as [|c s (rest & Hs & Hnum & Hrest)].
  - exists "". by repeat split.
  - rewrite credit_hours_of_cons.
    destruct (PyStr.isnumeric c) eqn:Hc.
    + exists rest. split; [exact (f_equal (String c) Hs)|]. split; [|done].
      simpl. by constructor.
    + exists (String c s). by repeat split.
Qed.

Lemma leading_numeric_run_unique (s r : string) :
  leading_numeric_run s r → r = credit_hours_of s.
Proof.
  revert s. induction r as [|c r IH]; intros s (rest & -> & Hnum & Hrest).
  - change ("" +:+ rest) with rest. destruct rest as [|c rest']; [done|].
    rewrite credit_hours_of_cons. by rewrite Hrest.
  - change (String c r +:+ rest) with (String c (r +:+ rest)).
    inversion Hnum as [|? ? Hc Hnum']; subst.
    rewrite credit_hours_of_cons, Hc. f_equal.
    apply IH. by exists rest.
Qed.

(** C4.  For every credits text, the credit hours the parser computes
    from it are exactly the maximal leading run of numeric characters of
    the text: a string is that run if and only if it is the computed
    value.  Hence the value is empty when the text does not start with a
    numeric character, "3 Credits" gives "3", "1-3 Credits" gives "1" and
    "Credits: 3" gives the empty string. *)
Theorem credit_hours_leading_run :
  (∀ credit_text r : string,
      leading_numeric_run credit_text r ↔ r = credit_hours_of credit_text)
  ∧ (∀ (c : ascii) (rest : string),
        credit_hours_of (String c rest)
        = if PyStr.isnumeric c then String c (credit_hours_of rest) else "")
  ∧ credit_hours_of "3 Credits" = "3"
  ∧ credit_hours_of "1-3 Credits" = "1"
  ∧ credit_hours_of "Credits: 3" = "".
Proof.
  split; [|split; [exact credit_hours_of_cons|by repeat split]].
  intros s r. split.
  - apply leading_numeric_run_unique.
  - intros ->. apply credit_hours_is_run.
Qed.

(** ** Strings: joining, white space, stripping *)

Lemma string_app_nil_r (s : string) : s +:+ "" = s.
Proof.
  induction s as [|c s IH]; [done|].
  change (String c (s +:+ "") = String c s). by rewrite IH.
Qed.

Lemma join_empty_cons (x : string) (l : list string) :
  PyStr.join "" (x :: l) = x +:+ PyStr.join "" l.
Proof.
  destruct l as [|y l]; [|done].
  cbn [PyStr.join]. by rewrite string_app_nil_r.
Qed.

(** The scan of [re.sub] against the runs: outside a match it yields the
    collapsed text; inside a match the space of a leading run of white
    space has been emitted already. *)
Lemma re_sub_scan_runs (s : string) :
  PyStr.re_sub_scan false s = PyStr.join "" (map piece (runs s))
  ∧ PyStr.re_sub_scan true s
    = match runs s with
      | (true, _) :: rs => PyStr.join "" (map piece rs)
      | rs => PyStr.join "" (map piece rs)
      end.
Proof.
  induction s as [|c s [IHf IHt]]; [done|].
  cbn [PyStr.re_sub_scan runs].
  destruct (PyStr.ws_class c) eqn:Hc.
  - rewrite IHt. destruct (runs s) as [|[[] r] rs]; cbn [Bool.eqb map];
      rewrite ?join_empty_cons; by cbn.
  - rewrite IHf. destruct (runs s) as [|[[] r] rs]; cbn [Bool.eqb map];
      rewrite ?join_empty_cons; by cbn.
Qed.

Lemma re_sub_ws_collapse (text : string) :
  PyStr.re_sub_ws text = collapse_whitespace text.
Proof.
  apply re_sub_scan_runs.
Qed.

(** The runs of a text are a partition of it ... *)
Lemma runs_partition (s : string) :
  PyStr.join "" (map snd (runs s)) = s.
Proof.
  induction s as [|c s IH]; [done|]. cbn [runs].
  destruct (runs s) as [|[w r] rs].
  - simpl in *. by subst.
  - cbn [map snd] in IH. rewrite join_empty_cons in IH.
    destruct (Bool.eqb w (PyStr.ws_class c)); cbn [map snd];
      rewrite !join_empty_cons, <- IH; reflexivity.
Qed.

(** ... into non-empty pieces, each of one kind, ... *)
Lemma runs_uniform (s : string) :
  Forall (fun wr : bool * string =>
            wr.2 ≠ ""
            ∧ Forall (fun c => PyStr.ws_class c = wr.1) (list_ascii_of_string wr.2))
         (runs s).
Proof.
  induction s as [|c s IH]; [constructor|]. cbn [runs].
  destruct (runs s) as [|[w r] rs].
  - repeat constructor. done.
  - inversion IH as [|? ? [Hne Hall] IH']; subst.
    destruct (Bool.eqb w (PyStr.ws_class c)) eqn:Hw.
    + apply Bool.eqb_prop in Hw. constructor; [|done].
      split; [done|]. cbn. constructor; [done|]. exact Hall.
    + constructor; [|done]. split; [done|]. cbn. by repeat constructor.
Qed.

(** ... and neighbours are of different kinds: the pieces are maximal. *)
Lemma runs_alternating (s : string) : alternating (runs s).
Proof.
  induction s as [|c s IH]; [done|]. cbn [runs].
  destruct (runs s) as [|[w r] rs]; [done|].
  destruct (Bool.eqb w (PyStr.ws_class c)) eqn:Hw.
  - destruct rs as [|[w' r'] rs]; [done|]. exact IH.
  - split; [|exact IH]. intros <-. by rewrite Bool.eqb_reflx in Hw.
Qed.

(** [strip] removes white space at both ends and nothing else. *)
Lemma lstrip_spec (s : string) :
  ∃ l, s = l +:+ PyStr.lstrip s
       ∧ Forall (fun c => PyStr.isspace c = true) (list_ascii_of_string l)
       ∧ match PyStr.lstrip s with
         | String c _ => PyStr.isspace c = false
         | EmptyString => True
         end.
Proof.
  induction s as [|c s (l & Hs & Hl & Hhd)].
  - by exists "".
  - cbn [PyStr.lstrip]. destruct (PyStr.isspace c) eqn:Hc.
    + exists (String c l). split; [exact (f_equal (String c) Hs)|].
      split; [|done]. cbn. by constructor.
    + exists "". by repeat split.
Qed.

Lemma rstrip_spec (s : string) :
  ∃ r, s = PyStr.rstrip s +:+ r
       ∧ Forall (fun c => PyStr.isspace c = true) (list_ascii_of_string r)
       ∧ (∀ s' c, PyStr.rstrip s = s' +:+ String c "" → PyStr.isspace c = false).
Proof.
  induction s as [|c s (r & Hs & Hr & Hlast)].
  - exists "". repeat split; [constructor|]. by intros [|? ?] c.
  - cbn [PyStr.rstrip]. destruct (PyStr.rstrip s) as [|c' t] eqn:Ht.
    + destruct (PyStr.isspace c) eqn:Hc.
      * exists (String c r). split; [exact (f_equal (String c) Hs)|].
        split; [cbn; by constructor|]. by intros [|? ?] c0.
      * exists r. split; [exact (f_equal (String c) Hs)|]. split; [done|].
        intros [|? [|? ?]] c0; cbn; intros [= ]; by subst.
    + exists r. split; [exact (f_equal (String c) Hs)|]. split; [done|].
      intros [|c1 s1] c0.
      * cbn. intros [= ]; done.
      * cbn. intros [= <- H]. by apply (Hlast s1).
Qed.

Lemma prefix_spec (p s : string) :
  String.prefix p s = true ↔ ∃ rest, s = p +:+ rest.
Proof.
  revert s. induction p as [|a p IH]; intros s.
  - split; [intros _; by exists s|]. by destruct s.
  - destruct s as [|b s]; cbn [String.prefix].
    + split; [done|]. by intros [rest [=]].
    + destruct (ascii_dec a b) as [<-|Hab].
      * rewrite IH. split; intros [rest H]; exists rest.
        -- exact (f_equal (String a) H).
        -- by injection H.
      * split; [done|]. intros [rest [= ? _]]. by destruct Hab.
Qed.

(** [sub in s] holds exactly when [s] is some text, then [sub], then
    some text. *)
Lemma contains_spec (sub s : string) :
  PyStr.contains sub s = true ↔ ∃ before rest, s = before +:+ sub +:+ rest.
Proof.
  induction s as [|c s IH]; cbn [PyStr.contains].
  - rewrite orb_false_r, prefix_spec. split.
    + intros [rest H]. by exists "", rest.
    + intros ([|? ?] & rest & H); [by exists rest|done].
  - rewrite orb_true_iff, prefix_spec, IH. split.
    + intros [[rest H]|(before & rest & H)].
      * by exists "", rest.
      * exists (String c before), rest. exact (f_equal (String c) H).
    + intros ([|c' before] & rest & H).
      * left. by exists rest.
      * right. injection H as _ H. by exists before, rest.
Qed.

(** ** The course parser *)

Lemma attributes_loop_spec (paragraphs : list bs4.Tag) (acc : list string) :
  attributes_loop paragraphs acc
  = acc ++ map (fun p => PyStr.strip (PyStr.re_sub_ws (bs4.get_text p)))
               (qualifying paragraphs).
Proof.
  revert acc. induction paragraphs as [|p ps IH]; intros acc.
  - by rewrite app_nil_r.
  - cbn [attributes_loop]. unfold qualifying. rewrite filter_cons.
    destruct (PyStr.contains "Objective" (bs4.get_text p)) eqn:Hp.
    + rewrite decide_False by done. apply IH.
    + rewrite decide_True by done. cbn [negb map].
      rewrite IH. by rewrite <- app_assoc.
Qed.

(** The parser returns a record exactly when the four lookups of the
    title succeed; the description and attributes never make it raise. *)
Lemma extract_course_info_title (course : bs4.Tag) :
  match extract_course_info course with
  | Return c =>
      ∃ details_div course_code course_codetitle course_credits,
        bs4.find_class "div" "courseblocktitle_bubble" course = Some details_div
        ∧ bs4.find_class "div" "course_code" details_div = Some course_code
        ∧ bs4.find_class "div" "course_codetitle" details_div = Some course_codetitle
        ∧ bs4.find_class "div" "course_credits" details_div = Some course_credits
        ∧ code c = PyStr.join " " (map bs4.get_text (bs4.find_all "span" course_code))
        ∧ name c = bs4.get_text_strip course_codetitle
        ∧ credits c = credit_hours_of (bs4.get_text_strip course_credits)
  | Raise e =>
      e = AttributeError
      ∧ match bs4.find_class "div" "courseblocktitle_bubble" course with
        | Some details_div =>
            bs4.find_class "div" "course_code" details_div = None
            ∨ bs4.find_class "div" "course_codetitle" details_div = None
            ∨ bs4.find_class "div" "course_credits" details_div = None
        | None => True
        end
  end.
Proof.
  unfold extract_course_info.
  destruct (bs4.find_class "div" "courseblocktitle_bubble" course) as [d|]; cbn; [|done].
  destruct (bs4.find_class "div" "course_code" d) as [cc|] eqn:Hcc; cbn;
    [|by split; [|left]].
  destruct (bs4.find_class "div" "course_codetitle" d) as [ct|] eqn:Hct; cbn;
    [|by split; [|right; left]].
  destruct (bs4.find_class "div" "course_credits" d) as [cr|] eqn:Hcr; cbn;
    [|by split; [|right; right]].
  by exists d, cc, ct, cr.
Qed.
Lemma extract_course_info_description (course : bs4.Tag) (c : Course) :
  extract_course_info course = Return c →
  description c
  = match bs4.find_class "div" "courseblockdesc" course with
    | Some courseblockdesc =>
        match bs4.find "p" courseblockdesc with
        | Some p => bs4.get_text_strip p
        | None => "N/A"
        end
    | None => "N/A"
    end.
Proof.
  unfold extract_course_info.
  destruct (bs4.find_class "div" "courseblocktitle_bubble" course) as [d|]; cbn; [|done].
  destruct (bs4.find_class "div" "course_code" d) as [cc|]; cbn; [|done].
  destruct (bs4.find_class "div" "course_codetitle" d) as [ct|]; cbn; [|done].
  destruct (bs4.find_class "div" "course_credits" d) as [cr|]; cbn; [|done].
  intros [= <-]. cbn.
  destruct (bs4.find_class "div" "courseblockdesc" course) as [b|]; cbn; [|done].
  by destruct (bs4.find "p" b).
Qed.

Lemma extract_course_info_attributes (course : bs4.Tag) (c : Course) :
  extract_course_info course = Return c →
  attributes c
  = match bs4.find_class "div" "courseblockextra" course with
    | Some courseblockextra =>
        PyStr.join ", "
          (map (fun p => PyStr.strip (PyStr.re_sub_ws (bs4.get_text p)))
               (qualifying (bs4.find_all "p" courseblockextra)))
        +:+ " "
    | None => "N/A"
    end.
Proof.
  unfold extract_course_info.
  destruct (bs4.find_class "div" "courseblocktitle_bubble" course) as [d|]; cbn; [|done].
  destruct (bs4.find_class "div" "course_code" d) as [cc|]; cbn; [|done].
  destruct (bs4.find_class "div" "course_codetitle" d) as [ct|]; cbn; [|done].
  destruct (bs4.find_class "div" "course_credits" d) as [cr|]; cbn; [|done].
  intros [= <-]. cbn.
  destruct (bs4.find_class "div" "courseblockextra" course) as [x|]; cbn; [|done].
  by rewrite attributes_loop_spec.
Qed.

(** A paragraph with a single string: stripping string by string is
    stripping the text. *)
Lemma get_text_strip_single (p : bs4.Tag) (s : string) :
  bs4.strings (bs4.descendants p) = [s] → bs4.get_text_strip p = trimmed_text p.
Proof.
  unfold bs4.get_text_strip, trimmed_text, bs4.get_text. intros ->.
  cbn [map PyStr.join]. rewrite filter_cons, filter_nil.
  destruct (decide (PyStr.strip s = "")) as [Hs|Hs].
  - rewrite decide_False by (intros Hne; by apply Hne). by rewrite Hs.
  - by rewrite decide_True.
Qed.

(** C5 (as amended).  For every course element the parser returns a
    record for: when the extra block is absent the attributes field is
    the sentinel "N/A"; when it is present (with or without paragraphs)
    the field is made from the paragraphs of the block whose text does not
    contain "Objective", each with every run of white space (no-break
    space included) collapsed into one space and then trimmed, joined with
    ", ", and one space appended. *)
Theorem attributes_field (course : bs4.Tag) (c : Course) :
  extract_course_info course = Return c →
  attributes c
  = match bs4.find_class "div" "courseblockextra" course with
    | Some courseblockextra =>
        PyStr.join ", "
          (map (fun p => PyStr.strip (collapse_whitespace (bs4.get_text p)))
               (qualifying (bs4.find_all "p" courseblockextra)))
        +:+ " "
    | None => "N/A"
    end.
Proof.
  intros H. rewrite (extract_course_info_attributes _ _ H).
  destruct (bs4.find_class "div" "courseblockextra" course) as [x|]; [|done].
  do 2 f_equal. apply map_ext. intros p. by rewrite re_sub_ws_collapse.
Qed.

Lemma attributes_field_witness :
  extract_course_info Fixture.course_with_attributes
  = Return Fixture.record_with_attributes
  ∧ attributes Fixture.record_with_attributes
    = match bs4.find_class "div" "courseblockextra" Fixture.course_with_attributes with
      | Some courseblockextra =>
          PyStr.join ", "
            (map (fun p => PyStr.strip (collapse_whitespace (bs4.get_text p)))
                 (qualifying (bs4.find_all "p" courseblockextra)))
          +:+ " "
      | None => "N/A"
      end.
Proof.
  split; [vm_compute; reflexivity|].
  apply (attributes_field Fixture.course_with_attributes).
  vm_compute. reflexivity.
Defined.

(** C5 as stated fails: an extra block that is present and empty gives
    the single space, not "N/A". *)
Lemma attributes_empty_extra_not_sentinel :
  ∃ c courseblockextra,
    extract_course_info Fixture.course_empty_extra = Return c
    ∧ bs4.find_class "div" "courseblockextra" Fixture.course_empty_extra
      = Some courseblockextra
    ∧ bs4.contents courseblockextra = []
    ∧ attributes c = " "
    ∧ attributes c ≠ "N/A".
Proof.
  eexists _, _. split; [vm_compute; reflexivity|].
  split; [vm_compute; reflexivity|]. by repeat split.
Qed.

(** C6.  When the extra block is present and every paragraph in it
    contains "Objective", the attributes field is the single space (the
    join of no paragraph, plus the appended space), not the sentinel
    "N/A". *)
Theorem attributes_all_objective (course courseblockextra : bs4.Tag) (c : Course) :
  extract_course_info course = Return c →
  bs4.find_class "div" "courseblockextra" course = Some courseblockextra →
  Forall (fun p => PyStr.contains "Objective" (bs4.get_text p) = true)
         (bs4.find_all "p" courseblockextra) →
  attributes c = " " ∧ attributes c ≠ "N/A".
Proof.
  intros H Hx Hall. rewrite (extract_course_info_attributes _ _ H), Hx.
  assert (qualifying (bs4.find_all "p" courseblockextra) = []) as ->; [|done].
  unfold qualifying. induction Hall as [|p ps Hp _ IH]; [done|].
  rewrite filter_cons, decide_False; [done|]. by rewrite Hp.
Qed.

Lemma attributes_all_objective_witness :
  extract_course_info Fixture.course_objectives_only
  = Return Fixture.record_blank_attributes
  ∧ attributes Fixture.record_blank_attributes = " "
  ∧ attributes Fixture.record_blank_attributes ≠ "N/A".
Proof.
  split; [vm_compute; reflexivity|].
  apply (attributes_all_objective Fixture.course_objectives_only
           (Fixture.el "div" ["courseblockextra"]
              [Fixture.para [inl "Learning Objective: recursion"];
               Fixture.para [inl "General Education Objective: reasoning"]])).
  - vm_compute. reflexivity.
  - vm_compute. reflexivity.
  - vm_compute. repeat constructor.
Defined.

(** C9 (as amended).  For every course element whose title fields are
    present the parser returns a record, whatever the description block
    looks like; the description field of the record is the sentinel "N/A"
    when the description block or its paragraph is absent, and otherwise
    the strings of the first paragraph of the block, each trimmed, the
    empty ones dropped, and concatenated.  When that paragraph holds a
    single string, this is the trimmed text of the paragraph. *)
Theorem description_field
    (course details_div course_code course_codetitle course_credits : bs4.Tag) :
  bs4.find_class "div" "courseblocktitle_bubble" course = Some details_div →
  bs4.find_class "div" "course_code" details_div = Some course_code →
  bs4.find_class "div" "course_codetitle" details_div = Some course_codetitle →
  bs4.find_class "div" "course_credits" details_div = Some course_credits →
  ∃ c,
    extract_course_info course = Return c
    ∧ match bs4.find_class "div" "courseblockdesc" course with
      | Some courseblockdesc =>
          match bs4.find "p" courseblockdesc with
          | Some p =>
              description c
              = PyStr.join ""
                  (filter (fun s => s ≠ "")
                     (map PyStr.strip (bs4.strings (bs4.descendants p))))
              ∧ (∀ s, bs4.strings (bs4.descendants p) = [s] →
                      description c = trimmed_text p)
          | None => description c = "N/A"
          end
      | None => description c = "N/A"
      end.
Proof.
  intros Hd Hcc Hct Hcr.
  pose proof (extract_course_info_title course) as Ht.
  destruct (extract_course_info course) as [c|e] eqn:Hc.
  - exists c. split; [done|].
    rewrite (extract_course_info_description _ _ Hc).
    destruct (bs4.find_class "div" "courseblockdesc" course) as [b|]; [|done].
    destruct (bs4.find "p" b) as [p|]; [|done].
    split; [done|]. intros s Hs. by apply get_text_strip_single with s.
  - destruct Ht as [_ Ht]. rewrite Hd in Ht.
    destruct Ht as [Ht|[Ht|Ht]]; congruence.
Qed.

Lemma description_field_witness :
  ∃ c,
    extract_course_info Fixture.course_plain_description = Return c
    ∧ match bs4.find_class "div" "courseblockdesc" Fixture.course_plain_description with
      | Some courseblockdesc =>
          match bs4.find "p" courseblockdesc with
          | Some p =>
              description c
              = PyStr.join ""
                  (filter (fun s => s ≠ "")
                     (map PyStr.strip (bs4.strings (bs4.descendants p))))
              ∧ (∀ s, bs4.strings (bs4.descendants p) = [s] →
                      description c = trimmed_text p)
          | None => description c = "N/A"
          end
      | None => description c = "N/A"
      end.
Proof.
  apply (description_field Fixture.course_plain_description
           (Fixture.title_bubble "CS" "103" "Logic" "3 Credits")
           (Fixture.el "div" ["course_code"]
              [inr (Fixture.el "span" [] [inl "CS"]);
               inr (Fixture.el "span" [] [inl "103"])])
           (Fixture.el "div" ["course_codetitle"] [inl "Logic"])
           (Fixture.el "div" ["course_credits"] [inl "3 Credits"]));
    vm_compute; reflexivity.
Defined.

(** C9 as stated fails: the description paragraph below holds a link
    between two strings; each string is trimmed on its own, so the
    spaces around the link are lost and the field is not the trimmed text
    of the paragraph. *)
Lemma description_not_trimmed_text :
  ∃ c courseblockdesc p,
    extract_course_info Fixture.course_linked_description = Return c
    ∧ bs4.find_class "div" "courseblockdesc" Fixture.course_linked_description
      = Some courseblockdesc
    ∧ bs4.find "p" courseblockdesc = Some p
    ∧ description c = "Builds onCS 101and more."
    ∧ trimmed_text p = "Builds on CS 101 and more."
    ∧ description c ≠ trimmed_text p.
Proof.
  eexists _, _, _. split; [vm_compute; reflexivity|].
  split; [vm_compute; reflexivity|]. split; [vm_compute; reflexivity|].
  split; [reflexivity|]. split; [vm_compute; reflexivity|].
  vm_compute. discriminate.
Qed.

(** ** The fetchers *)

(** Unfold the monad of the script and compute. *)
Ltac run := unfold try_except, lift, mbind, M_bind, mret, M_ret; cbn.

Lemma add_logs_vars (rs : list LogRecord) (p : Process) :
  vars (add_logs rs p) = vars p.
Proof. done. Qed.

Lemma raise_for_status_cases (r : Response) :
  raise_for_status r = Return tt
  ∨ raise_for_status r = Raise (HTTPError (status_code r)).
Proof. unfold raise_for_status. destruct (_ && _); auto. Qed.

Lemma py_urljoin_raise (env : Env) (base h : string) (e : Exception) :
  py_urljoin env base h = Raise e → e = ValueError.
Proof. unfold py_urljoin. destruct (urljoin env base h); [done|]. by intros [= <-]. Qed.

Lemma category_links_of_raise (env : Env) (base : string) (lis : list bs4.Tag)
    (e : Exception) :
  category_links_of env base lis = Raise e → e = ValueError.
Proof.
  induction lis as [|li lis IH]; cbn; [done|].
  destruct (bs4.find "a" li) as [a|]; [|done].
  unfold urljoin_href. destruct (bs4.href a) as [h|]; cbn.
  - destruct (py_urljoin env base h) as [u|e'] eqn:Hj; cbn.
    + destruct (category_links_of env base lis); cbn; [done|].
      intros [= <-]. by apply IH.
    + intros [= <-]. by apply py_urljoin_raise in Hj.
  - destruct (category_links_of env base lis); cbn; [done|].
    intros [= <-]. by apply IH.
Qed.

(** [fetch_category_links] touches the log only, and what it does not
    return is a [ValueError] of [urljoin], raised before anything is
    logged. *)
Lemma fetch_category_links_run (env : Env) (base_url : string) (p : Process) :
  fetch_category_links env base_url p
  = match (fetch_category_links env base_url fresh).1 with
    | Return links =>
        (Return links, add_logs (emitted (fetch_category_links env base_url)) p)
    | Raise _ => (Raise ValueError, p)
    end.
Proof.
  unfold emitted, fetch_category_links, get_url. run.
  destruct (requests_get env base_url) as [r|]; cbn; [|done].
  destruct (raise_for_status_cases r) as [-> | ->]; cbn; [|done].
  destruct (bs4.find_id _ _ _) as [links|]; [|done]. cbn.
  destruct (category_links_of _ _ _) as [l|e] eqn:Hl; cbn; [done|].
  apply category_links_of_raise in Hl as ->. done.
Qed.

Lemma catalog_fetched (env : Env) (links : list string) :
  catalog env = Return links → fetched (fetch_category_links env BASE_URL) = links.
Proof. unfold catalog, fetched. by intros ->. Qed.

Lemma catalog_raise (env : Env) (e : Exception) :
  catalog env = Raise e →
  e = ValueError ∧ fetched (fetch_category_links env BASE_URL) = [].
Proof.
  unfold fetched. intros H. pose proof (fetch_category_links_run env BASE_URL fresh) as Hr.
  unfold catalog in H. rewrite H in *. split; [|done].
  destruct (fetch_category_links env BASE_URL fresh) as [o q]. cbn in H. subst o.
  by injection Hr as ->.
Qed.

(** [fetch_subject_links] never raises: every exception is caught
    inside. *)
Lemma fetch_subject_links_run (env : Env) (category : string) (p : Process) :
  fetch_subject_links env category p
  = (Return (fetched (fetch_subject_links env category)),
     add_logs (emitted (fetch_subject_links env category)) p).
Proof.
  unfold fetched, emitted, fetch_subject_links, get_url. run.
  destruct (requests_get env category) as [r|]; cbn; [|done].
  destruct (raise_for_status_cases r) as [-> | ->]; cbn; [|done].
  destruct (bs4.find_class _ _ _) as [az|]; cbn; [|done].
  destruct (subject_links_of _ _ _) as [l|e]; cbn; [done|].
  by destruct (is_HTTPError e).
Qed.

Lemma request_fails_fetch (env : Env) :
  request_fails env BASE_URL →
  ∃ e, is_RequestException e = true
       ∧ ∀ p, fetch_category_links env BASE_URL p
              = (Return [], add_logs [error_fetching_category_links e] p).
Proof.
  unfold request_fails, fetch_category_links, get_url.
  destruct (requests_get env BASE_URL) as [r|].
  - intros Hr. destruct (raise_for_status_cases r) as [H|H]; [done|].
    exists (HTTPError (status_code r)). split; [done|]. intros p. run.
    by rewrite H.
  - intros _. by exists ConnectionError.
Qed.

Lemma empty_catalog_fetch (env : Env) :
  empty_catalog env → catalog env = Return [].
Proof.
  intros (r & [Hget Hstatus] & Hlinks).
  unfold catalog, fetch_category_links, get_url. run.
  rewrite Hget. cbn. rewrite Hstatus. cbn.
  destruct (bs4.find_id _ _ _) as [links|]; [|done]. cbn.
  assert (category_links_of env BASE_URL (bs4.find_all "li" links) = Return []) as ->; [|done].
  induction Hlinks as [|li lis Hli _ IH]; [done|]. cbn. by rewrite Hli.
Qed.

(** ** Staging and flushing *)

Lemma vars_eq (p q : Process) :
  vars p = vars q ↔
  counter p = counter q ∧ batch p = batch q
  ∧ existing_codes p = existing_codes q ∧ inserted p = inserted q.
Proof.
  unfold vars. split.
  - by intros [= -> -> -> ->].
  - by intros (-> & -> & -> & ->).
Qed.

Lemma stage_if_new_returns (c : Course) (p : Process) :
  (stage_if_new c p).1 = Return tt.
Proof. unfold stage_if_new. by case_bool_decide. Qed.

Lemma stage_if_new_vars (c : Course) (p q : Process) :
  vars p = vars q → vars (stage_if_new c p).2 = vars (stage_if_new c q).2.
Proof.
  rewrite vars_eq. intros (Hc & Hb & He & Hi). unfold stage_if_new.
  rewrite He. case_bool_decide; cbn; unfold vars; cbn; congruence.
Qed.

Lemma stage_if_new_known (c : Course) (p : Process) :
  code c ∈ existing_codes p →
  stage_if_new c p
  = (Return tt, add_logs [info_already_in_database (code c) (name c)] p).
Proof.
  intros H. unfold stage_if_new. by rewrite bool_decide_eq_false_2 by auto.
Qed.

Lemma stage_if_new_fresh (c : Course) (p : Process) :
  code c ∉ existing_codes p →
  stage_if_new c p
  = (Return tt,
     mkProcess (log p ++ [info_prepared_entry (code c) (name c)])
       (counter p + 1) (batch p ++ [c]) (existing_codes p ∪ {[code c]})
       (inserted p)).
Proof.
  intros H. unfold stage_if_new. by rewrite bool_decide_eq_true_2.
Qed.

Lemma stage_if_new_cases (c : Course) (q : Process) :
  let q' := (stage_if_new c q).2 in
  if bool_decide (code c ∈ existing_codes q)
  then vars q' = vars q
  else batch q' = batch q ++ [c]
       ∧ counter q' = counter q + 1
       ∧ existing_codes q' = existing_codes q ∪ {[code c]}
       ∧ inserted q' = inserted q.
Proof.
  cbn. case_bool_decide as H.
  - by rewrite stage_if_new_known.
  - by rewrite stage_if_new_fresh.
Qed.

(** Staging adds at most one record to the batch. *)
Lemma stage_if_new_batch (c : Course) (p : Process) :
  let p' := (stage_if_new c p).2 in
  inserted p' = inserted p
  ∧ (batch p' = batch p ∧ counter p' = counter p
     ∨ batch p' = batch p ++ [c] ∧ counter p' = counter p + 1).
Proof.
  destruct (decide (code c ∈ existing_codes p)) as [H|H].
  - rewrite stage_if_new_known by done. cbn. auto.
  - rewrite stage_if_new_fresh by done. cbn. auto.
Qed.

Lemma flush_if_full_below (env : Env) (p : Process) :
  length (batch p) < BATCH_SIZE → flush_if_full env p = (Return tt, p).
Proof.
  intros H. unfold flush_if_full.
  by rewrite (proj2 (Nat.leb_gt _ _) H).
Qed.

Lemma flush_if_full_reached (env : Env) (p : Process) :
  BATCH_SIZE ≤ length (batch p) →
  accepts env p (batch p) = true →
  flush_if_full env p
  = (Return tt,
     mkProcess (log p ++ [info_inserted (length (batch p)) (last_code (batch p))])
       (counter p) [] (existing_codes p) (inserted p ++ [batch p])).
Proof.
  intros H Hok. unfold flush_if_full, insert_courses.
  rewrite (proj2 (Nat.leb_le _ _) H). run. by rewrite Hok.
Qed.

(** A refused insert leaves the locals as they are: the batch is not
    cleared. *)
Lemma flush_if_full_refused (env : Env) (p : Process) :
  BATCH_SIZE ≤ length (batch p) →
  accepts env p (batch p) = false →
  flush_if_full env p = (Raise pyodbc_Error, p).
Proof.
  intros H Hno. unfold flush_if_full, insert_courses.
  rewrite (proj2 (Nat.leb_le _ _) H). run. by rewrite Hno.
Qed.

Lemma flush_if_full_cases (env : Env) (p : Process) :
  flush_if_full env p = (Raise pyodbc_Error, p)
  ∨ (flush_if_full env p).1 = Return tt.
Proof.
  destruct (decide (length (batch p) < BATCH_SIZE)) as [Hlt|Hge].
  - right. by rewrite flush_if_full_below.
  - destruct (accepts env p (batch p)) eqn:Hok.
    + right. by rewrite flush_if_full_reached by (done || lia).
    + left. apply flush_if_full_refused; [lia|done].
Qed.

Lemma flush_if_full_returns (env : Env) (p : Process) :
  reliable env → (flush_if_full env p).1 = Return tt.
Proof.
  intros Hrel. destruct (decide (length (batch p) < BATCH_SIZE)) as [Hlt|Hge].
  - by rewrite flush_if_full_below.
  - by rewrite flush_if_full_reached by (apply Hrel || lia).
Qed.

Lemma flush_if_full_vars (env : Env) (p q : Process) :
  reliable env →
  vars p = vars q → vars (flush_if_full env p).2 = vars (flush_if_full env q).2.
Proof.
  intros Hrel. rewrite vars_eq. intros (Hc & Hb & He & Hi).
  destruct (decide (length (batch p) < BATCH_SIZE)) as [Hlt|Hge].
  - rewrite !flush_if_full_below by congruence. by apply vars_eq.
  - rewrite !flush_if_full_reached by (apply Hrel || (rewrite <- ?Hb; lia)).
    unfold vars. cbn. congruence.
Qed.

Lemma step_known (env : Env) (c : Course) (p : Process) :
  code c ∈ existing_codes p →
  length (batch p) < BATCH_SIZE →
  flush_if_full env (stage_if_new c p).2
  = (Return tt, add_logs [info_already_in_database (code c) (name c)] p).
Proof.
  intros Hc Hb. rewrite stage_if_new_known by done.
  by rewrite flush_if_full_below.
Qed.

Lemma step_fresh (env : Env) (c : Course) (p : Process) :
  code c ∉ existing_codes p →
  length (batch p) + 1 < BATCH_SIZE →
  flush_if_full env (stage_if_new c p).2
  = (Return tt,
     mkProcess (log p ++ [info_prepared_entry (code c) (name c)])
       (counter p + 1) (batch p ++ [c]) (existing_codes p ∪ {[code c]})
       (inserted p)).
Proof.
  intros Hc Hb. rewrite stage_if_new_fresh by done.
  rewrite flush_if_full_below; [done|]. cbn. by rewrite length_app.
Qed.

Lemma flush_remainder_empty (env : Env) (p : Process) :
  batch p = [] → flush_remainder env p = (Return tt, p).
Proof. intros H. unfold flush_remainder. by rewrite H. Qed.

Lemma flush_remainder_accepted (env : Env) (p : Process) :
  batch p ≠ [] →
  accepts env p (batch p) = true →
  flush_remainder env p
  = (Return tt,
     mkProcess
       (log p ++ [info_inserted_remaining (length (batch p)) (last_code (batch p))])
       (counter p) (batch p) (existing_codes p) (inserted p ++ [batch p])).
Proof.
  intros Hb Hok. unfold flush_remainder, insert_courses.
  destruct (batch p) eqn:E; [done|]. run. rewrite Hok. cbn. by rewrite E.
Qed.

(** A refused final insert is caught nowhere. *)
Lemma flush_remainder_refused (env : Env) (p : Process) :
  batch p ≠ [] →
  accepts env p (batch p) = false →
  flush_remainder env p = (Raise pyodbc_Error, p).
Proof.
  intros Hb Hno. unfold flush_remainder, insert_courses.
  destruct (batch p) eqn:E; [done|]. run. by rewrite Hno.
Qed.

Lemma flush_remainder_returns (env : Env) (p : Process) :
  reliable env → (flush_remainder env p).1 = Return tt.
Proof.
  intros Hrel. destruct (decide (batch p = [])) as [Hb|Hb].
  - by rewrite flush_remainder_empty.
  - by rewrite flush_remainder_accepted by (done || apply Hrel).
Qed.

Lemma flush_remainder_vars (env : Env) (p q : Process) :
  reliable env →
  vars p = vars q →
  vars (flush_remainder env p).2 = vars (flush_remainder env q).2.
Proof.
  intros Hrel. rewrite vars_eq. intros (Hc & Hb & He & Hi).
  destruct (decide (batch p = [])) as [Hp|Hp].
  - rewrite !flush_remainder_empty by congruence. by apply vars_eq.
  - rewrite !flush_remainder_accepted by (apply Hrel || congruence).
    unfold vars. cbn. congruence.
Qed.

Lemma bind_run {A B} (m : M A) (f : A → M B) (p : Process) (a : A) :
  (m p).1 = Return a → (m ≫= f) p = f a (m p).2.
Proof. unfold mbind, M_bind. destruct (m p) as [o p']. cbn. by intros ->. Qed.

Lemma bind_raise {A B} (m : M A) (f : A → M B) (p : Process) (e : Exception) :
  (m p).1 = Raise e → (m ≫= f) p = (Raise e, (m p).2).
Proof. unfold mbind, M_bind. destruct (m p) as [o p']. cbn. by intros ->. Qed.

(** Staging stops at the first record whose flush is refused. *)
Lemma stage_all_step (env : Env) (c : Course) (cs : list Course) (p : Process) :
  stage_all env (c :: cs) p
  = match flush_if_full env (stage_if_new c p).2 with
    | (Return _, p') => stage_all env cs p'
    | (Raise e, p') => (Raise e, p')
    end.
Proof.
  unfold stage_all. cbn [for_each]. unfold mbind at 1, M_bind at 1.
  rewrite (bind_run _ _ _ tt) by apply stage_if_new_returns.
  by destruct (flush_if_full env _) as [[[]|e] p'].
Qed.

Lemma stage_all_cons (env : Env) (c : Course) (cs : list Course) (p : Process) :
  (flush_if_full env (stage_if_new c p).2).1 = Return tt →
  stage_all env (c :: cs) p
  = stage_all env cs (flush_if_full env (stage_if_new c p).2).2.
Proof.
  intros H. rewrite stage_all_step.
  destruct (flush_if_full env _) as [o p']. cbn in H. by subst o.
Qed.

Lemma stage_all_returns (env : Env) (cs : list Course) (p : Process) :
  reliable env → (stage_all env cs p).1 = Return tt.
Proof.
  intros Hrel. revert p. induction cs as [|c cs IH]; intros p; [done|].
  rewrite stage_all_cons by by apply flush_if_full_returns. apply IH.
Qed.

Lemma stage_all_vars (env : Env) (cs : list Course) (p q : Process) :
  reliable env →
  vars p = vars q → vars (stage_all env cs p).2 = vars (stage_all env cs q).2.
Proof.
  intros Hrel. revert p q. induction cs as [|c cs IH]; intros p q H; [done|].
  rewrite !stage_all_cons by by apply flush_if_full_returns.
  by apply IH, flush_if_full_vars, stage_if_new_vars.
Qed.

Lemma stage_all_app (env : Env) (cs cs' : list Course) (p : Process) :
  reliable env →
  stage_all env (cs ++ cs') p = stage_all env cs' (stage_all env cs p).2.
Proof.
  intros Hrel. revert p. induction cs as [|c cs IH]; intros p; [done|].
  cbn [app]. rewrite !stage_all_cons by by apply flush_if_full_returns. apply IH.
Qed.

Lemma step_inv (env : Env) (c : Course) (p : Process) :
  reliable env →
  flush_inv p →
  length (batch (stage_if_new c p).2) ≤ BATCH_SIZE
  ∧ flush_inv (flush_if_full env (stage_if_new c p).2).2.
Proof.
  intros Hrel (Hb & Hi & Hc).
  destruct (stage_if_new_batch c p) as (Hi' & Hcases).
  destruct (stage_if_new c p) as [o p1]. cbn [snd] in *.
  assert (length (batch p1) ≤ BATCH_SIZE
          ∧ counter p1 = BATCH_SIZE * length (inserted p1) + length (batch p1))
    as [Hle Hc1].
  { unfold BATCH_SIZE in *.
    destruct Hcases as [[-> ->]|[-> ->]]; rewrite Hi', ?length_app; cbn; lia. }
  split; [done|].
  destruct (decide (length (batch p1) < BATCH_SIZE)) as [Hlt|Hge].
  - rewrite flush_if_full_below by done. cbn [snd].
    repeat split; [done|by rewrite Hi'|done].
  - rewrite flush_if_full_reached by (apply Hrel || lia). unfold flush_inv. cbn.
    split; [unfold BATCH_SIZE; lia|]. split.
    + rewrite Hi'. apply Forall_app. split; [done|].
      constructor; [lia|constructor].
    + rewrite length_app. cbn. unfold BATCH_SIZE in *. lia.
Qed.

Lemma stage_all_inv (env : Env) (cs : list Course) (p : Process) :
  reliable env → flush_inv p → flush_inv (stage_all env cs p).2.
Proof.
  intros Hrel. revert p. induction cs as [|c cs IH]; intros p H; [done|].
  rewrite stage_all_cons by by apply flush_if_full_returns.
  by apply IH, step_inv.
Qed.

Lemma start_inv (env : Env) : flush_inv (start env).
Proof. repeat split; cbn; [unfold BATCH_SIZE; lia|constructor]. Qed.




Lemma elem_of_known_codes (env : Env) (x : string) :
  x ∈ known_codes env ↔ x ∈ Classes env.
Proof.
  unfold known_codes.
  assert (∀ l (s : gset string),
            x ∈ fold_left (fun s row => s ∪ {[row]}) l s ↔ x ∈ s ∨ x ∈ l) as H.
  { induction l as [|y l IHl]; intros s; cbn [fold_left].
    - rewrite elem_of_nil. tauto.
    - rewrite IHl, elem_of_union, elem_of_singleton, elem_of_cons. tauto. }
  rewrite H, elem_of_empty. tauto.
Qed.

(** Staging records whose codes are all known changes no local and
    asks nothing of the driver. *)
Lemma stage_all_known (env : Env) (cs : list Course) (p : Process) :
  (∀ c, c ∈ cs → code c ∈ existing_codes p) →
  batch p = [] →
  (stage_all env cs p).1 = Return tt ∧ vars (stage_all env cs p).2 = vars p.
Proof.
  revert p. induction cs as [|c cs IH]; intros p Hknown Hb; [done|].
  assert (length (batch p) < BATCH_SIZE) as Hlt
    by (rewrite Hb; cbn; unfold BATCH_SIZE; lia).
  rewrite stage_all_step, step_known by (done || apply Hknown; left).
  apply (IH (add_logs [info_already_in_database (code c) (name c)] p)); [|done].
  intros c' Hc'. apply Hknown. by right.
Qed.

Lemma step_codes (env : Env) (c : Course) (p : Process) :
  reliable env →
  codes_inv env p →
  let p' := (flush_if_full env (stage_if_new c p).2).2 in
  codes_inv env p' ∧ code c ∈ existing_codes p'
  ∧ existing_codes p ⊆ existing_codes p'.
Proof.
  intros Hrel Hinv.
  assert (let p1 := (stage_if_new c p).2 in
          codes_inv env p1 ∧ code c ∈ existing_codes p1
          ∧ existing_codes p ⊆ existing_codes p1) as (H1 & Hc & Hsub).
  { destruct (decide (code c ∈ existing_codes p)) as [Hin|Hnotin].
    - rewrite stage_if_new_known by done. by cbn.
    - rewrite stage_if_new_fresh by done. cbn.
      split; [|split; [by apply elem_of_union_r, elem_of_singleton
                      |apply union_subseteq_l]].
      intros x. cbn. rewrite elem_of_union, elem_of_singleton, (Hinv x).
      rewrite app_assoc, !map_app, !elem_of_app. cbn [map].
      rewrite list_elem_of_singleton. tauto. }
  destruct (stage_if_new c p) as [o p1]. cbn [snd] in *. cbn zeta.
  destruct (decide (length (batch p1) < BATCH_SIZE)) as [Hlt|Hge].
  - by rewrite flush_if_full_below.
  - rewrite flush_if_full_reached by (apply Hrel || lia). cbn. split; [|done].
    intros x. cbn. rewrite (H1 x), concat_app. cbn. by rewrite !app_nil_r.
Qed.

Lemma stage_all_codes (env : Env) (cs : list Course) (p : Process) :
  reliable env →
  codes_inv env p →
  let p' := (stage_all env cs p).2 in
  codes_inv env p' ∧ (∀ c, c ∈ cs → code c ∈ existing_codes p')
  ∧ existing_codes p ⊆ existing_codes p'.
Proof.
  intros Hrel. revert p. induction cs as [|c cs IH]; intros p Hinv.
  - cbn. split; [done|]. split; [|done]. by intros c ?%elem_of_nil.
  - cbn zeta. rewrite stage_all_cons by by apply flush_if_full_returns.
    destruct (step_codes env c p Hrel Hinv) as (H1 & Hc & Hsub).
    destruct (IH _ H1) as (H2 & Hcs & Hsub').
    split; [done|]. split; [|by transitivity (existing_codes
                                   (flush_if_full env (stage_if_new c p).2).2)].
    intros c' [->|Hc']%elem_of_cons; [by apply Hsub'|by apply Hcs].
Qed.

Lemma start_codes (env : Env) : codes_inv env (start env).
Proof.
  intros x. cbn. rewrite elem_of_known_codes, elem_of_nil. tauto.
Qed.

(** ** The loops of [main] *)

Lemma process_course_run (env : Env) (course : bs4.Tag) (p : Process) :
  process_course env course p
  = match extract_course_info course with
    | Return c => flush_if_full env (stage_if_new c p).2
    | Raise e => (Raise e, p)
    end.
Proof.
  unfold process_course. run.
  destruct (extract_course_info course) as [c|e]; [|done].
  pose proof (stage_if_new_returns c p) as Hs.
  destruct (stage_if_new c p) as [o p1]. cbn in *. by subst o.
Qed.

(** The course loop stages the records parsed before the first failure
    and leaves the state as it is then; it stops as well at the first
    flush that is refused. *)
Lemma course_loop (env : Env) (courses : list bs4.Tag) (p : Process) :
  (for_each courses (process_course env) p).2
  = (stage_all env (parsed courses) p).2.
Proof.
  revert p. induction courses as [|course courses IH]; intros p; [done|].
  cbn [for_each parsed]. unfold mbind, M_bind. rewrite process_course_run.
  destruct (extract_course_info course) as [c|e]; [|done].
  rewrite stage_all_step.
  destruct (flush_if_full env _) as [[[]|e] p2]; [apply IH|done].
Qed.

(** A subject never raises, and leaves the locals as staging its
    records does. *)
Lemma process_subject_run (env : Env) (subject : string) (p : Process) :
  (process_subject env subject p).1 = Return tt
  ∧ vars (process_subject env subject p).2
    = vars (stage_all env (subject_records env subject) p).2.
Proof.
  unfold process_subject, subject_records. run.
  destruct (fetch_courses env subject) as [[|course courses]|e]; [done| |done].
  pose proof (course_loop env (course :: courses) p) as H.
  destruct (for_each (course :: courses) (process_course env) p) as [[[]|e] p'];
    cbn in *; by rewrite <- H.
Qed.

Lemma for_each_returns {A} (body : A → M unit) (l : list A) (p : Process) :
  (∀ x q, (body x q).1 = Return tt) → (for_each l body p).1 = Return tt.
Proof.
  intros Hbody. revert p. induction l as [|x l IH]; intros p; [done|].
  cbn [for_each]. rewrite (bind_run _ _ _ tt) by apply Hbody. apply IH.
Qed.

(** Nor does a category raise. *)
Lemma process_category_returns (env : Env) (category : string) (p : Process) :
  (process_category env category p).1 = Return tt.
Proof.
  unfold process_category, try_except.
  rewrite (bind_run _ _ _ (fetched (fetch_subject_links env category)))
    by by rewrite fetch_subject_links_run.
  rewrite fetch_subject_links_run. cbn [snd].
  pose proof (for_each_returns (process_subject env)
                (fetched (fetch_subject_links env category))
                (add_logs (emitted (fetch_subject_links env category)) p)
                (fun x q => proj1 (process_subject_run env x q))) as H.
  destruct (for_each _ _ _) as [o p']. cbn in H. by subst o.
Qed.

(** A loop whose body acts on the locals like staging a list of
    records acts like staging the lists one after the other, as long as
    no insert is refused. *)
Lemma for_each_flat {A} (env : Env) (body : A → M unit) (records : A → list Course) :
  reliable env →
  (∀ x p, (body x p).1 = Return tt
          ∧ vars (body x p).2 = vars (stage_all env (records x) p).2) →
  ∀ l p, (for_each l body p).1 = Return tt
         ∧ vars (for_each l body p).2 = vars (stage_all env (l ≫= records) p).2.
Proof.
  intros Hrel Hbody l. induction l as [|x l IH]; intros p; [done|].
  destruct (Hbody x p) as [Hx Hv]. cbn [for_each].
  rewrite (bind_run _ _ _ tt) by done.
  destruct (IH (body x p).2) as [-> ->]. split; [done|].
  change ((x :: l) ≫= records) with (records x ++ (l ≫= records)).
  rewrite stage_all_app by done. by apply stage_all_vars.
Qed.

(** A loop whose body leaves the locals alone leaves them alone. *)
Lemma for_each_idle {A} (body : A → M unit) (l : list A) (v : Process) :
  (∀ x q, x ∈ l → vars q = vars v →
          (body x q).1 = Return tt ∧ vars (body x q).2 = vars v) →
  ∀ p, vars p = vars v →
       (for_each l body p).1 = Return tt ∧ vars (for_each l body p).2 = vars v.
Proof.
  induction l as [|x l IH]; intros Hbody q Hq; [done|].
  destruct (Hbody x q) as [Hx Hv]; [by left|done|]. cbn [for_each].
  rewrite (bind_run _ _ _ tt) by done.
  apply IH; [|done]. intros y q' Hy. apply Hbody. by right.
Qed.

Lemma process_category_state (env : Env) (category : string) (p : Process) :
  (process_category env category p).2
  = (for_each (fetched (fetch_subject_links env category)) (process_subject env)
       (add_logs (emitted (fetch_subject_links env category)) p)).2.
Proof.
  unfold process_category, try_except.
  rewrite (bind_run _ _ _ (fetched (fetch_subject_links env category)))
    by by rewrite fetch_subject_links_run.
  rewrite fetch_subject_links_run. cbn [snd].
  pose proof (for_each_returns (process_subject env)
                (fetched (fetch_subject_links env category))
                (add_logs (emitted (fetch_subject_links env category)) p)
                (fun x q => proj1 (process_subject_run env x q))) as H.
  destruct (for_each _ _ _) as [o p']. cbn in H. by subst o.
Qed.

Lemma process_category_run (env : Env) (category : string) (p : Process) :
  reliable env →
  (process_category env category p).1 = Return tt
  ∧ vars (process_category env category p).2
    = vars (stage_all env
              (fetched (fetch_subject_links env category) ≫= subject_records env)
              p).2.
Proof.
  intros Hrel. split; [apply process_category_returns|].
  rewrite process_category_state.
  destruct (for_each_flat env (process_subject env) (subject_records env) Hrel
              (process_subject_run env)
              (fetched (fetch_subject_links env category))
              (add_logs (emitted (fetch_subject_links env category)) p))
    as [_ ->].
  by apply stage_all_vars.
Qed.

(** The traversal when the catalogue page yields its links. *)
Lemma traverse_unfold (env : Env) (links : list string) :
  catalog env = Return links →
  traverse env fresh
  = for_each links (process_category env)
      (add_logs (emitted (fetch_category_links env BASE_URL)) (start env)).
Proof.
  intros H. unfold traverse. unfold catalog in H.
  rewrite (bind_run _ _ _ links) by done.
  rewrite fetch_category_links_run, H. done.
Qed.

Lemma traverse_returns (env : Env) (links : list string) :
  catalog env = Return links → (traverse env fresh).1 = Return tt.
Proof.
  intros H. rewrite (traverse_unfold env links H).
  apply for_each_returns, process_category_returns.
Qed.

(** The traversal when [urljoin] raises on one of them: nothing has
    been logged, no local has been set. *)
Lemma traverse_abort (env : Env) (e : Exception) :
  catalog env = Raise e → traverse env fresh = (Raise ValueError, fresh).
Proof.
  intros H. unfold traverse. unfold catalog in H.
  pose proof (fetch_category_links_run env BASE_URL fresh) as Hr.
  rewrite H in Hr. rewrite (bind_raise _ _ _ ValueError); by rewrite Hr.
Qed.

Lemma main_abort (env : Env) (e : Exception) :
  catalog env = Raise e → main env fresh = (Raise ValueError, fresh).
Proof.
  intros H. unfold main.
  rewrite (bind_raise _ _ _ ValueError); by rewrite (traverse_abort env e H).
Qed.

(** How a run ends once the traversal is through: the final flush, when
    it is refused, ends the run with the exception of the driver. *)
Lemma main_unfold (env : Env) (links : list string) :
  catalog env = Return links →
  main env fresh
  = match flush_remainder env (traverse env fresh).2 with
    | (Return _, p) => (Return tt, add_logs [info_total_added (counter p)] p)
    | (Raise e, p) => (Raise e, p)
    end.
Proof.
  intros H. unfold main.
  rewrite (bind_run _ _ _ tt) by by apply (traverse_returns env links).
  unfold mbind, M_bind.
  by destruct (flush_remainder env _) as [[[]|e] p].
Qed.

(** The locals a run ends with are those the final flush leaves. *)
Lemma main_vars_flush (env : Env) :
  vars (main env fresh).2 = vars (flush_remainder env (traverse env fresh).2).2.
Proof.
  destruct (catalog env) as [links|e] eqn:H.
  - rewrite (main_unfold env links H).
    by destruct (flush_remainder env _) as [[[]|e] p].
  - by rewrite (main_abort env e H), (traverse_abort env e H).
Qed.

Lemma traverse_run (env : Env) (links : list string) :
  reliable env →
  catalog env = Return links →
  (traverse env fresh).1 = Return tt
  ∧ vars (traverse env fresh).2
    = vars (stage_all env (traversal_records env) (start env)).2.
Proof.
  intros Hrel H. rewrite (traverse_unfold env links H).
  destruct (for_each_flat env (process_category env) _ Hrel
              (fun c p => process_category_run env c p Hrel) links
              (add_logs (emitted (fetch_category_links env BASE_URL)) (start env)))
    as [Ho Hv].
  split; [exact Ho|]. rewrite Hv. unfold traversal_records.
  rewrite (catalog_fetched env links H). by apply stage_all_vars.
Qed.

(** Whether or not the catalogue yields its links, the counter, the
    batch and the batches inserted are those of the records staged. *)
Lemma traverse_locals (env : Env) :
  reliable env →
  let p := (traverse env fresh).2 in
  let q := (stage_all env (traversal_records env) (start env)).2 in
  counter p = counter q ∧ batch p = batch q ∧ inserted p = inserted q.
Proof.
  intros Hrel. cbn zeta. destruct (catalog env) as [links|e] eqn:H.
  - destruct (traverse_run env links Hrel H) as [_ Hv].
    apply vars_eq in Hv. tauto.
  - rewrite (traverse_abort env e H). unfold traversal_records.
    destruct (catalog_raise env e H) as [_ ->]. done.
Qed.

Lemma main_run (env : Env) (links : list string) :
  reliable env →
  catalog env = Return links →
  (main env fresh).1 = Return tt
  ∧ vars (main env fresh).2 = vars (flush_remainder env (traverse env fresh).2).2.
Proof.
  intros Hrel H. split; [|apply main_vars_flush].
  rewrite (main_unfold env links H).
  pose proof (flush_remainder_returns env (traverse env fresh).2 Hrel) as Hf.
  destruct (flush_remainder env _) as [o p]. cbn in Hf. by subst o.
Qed.

Lemma main_no_categories (env : Env) :
  catalog env = Return [] →
  (main env fresh).1 = Return tt ∧ vars (main env fresh).2 = vars (start env).
Proof.
  intros H. rewrite (main_unfold env [] H), (traverse_unfold env [] H). done.
Qed.

(** A traversal all of whose records have a code in the table never
    calls the driver. *)
Lemma known_traverse (env : Env) (links : list string) :
  catalog env = Return links →
  (∀ c, c ∈ traversal_records env → code c ∈ Classes env) →
  (traverse env fresh).1 = Return tt
  ∧ vars (traverse env fresh).2 = vars (start env).
Proof.
  intros H Hknown. rewrite (traverse_unfold env links H).
  apply (for_each_idle (process_category env) links (start env)); [|done].
  intros category q Hcat Hq.
  split; [apply process_category_returns|].
  rewrite process_category_state.
  apply (for_each_idle (process_subject env)); [|done].
  intros subject q' Hsubj Hq'.
  destruct (process_subject_run env subject q') as [Hret ->].
  split; [done|]. rewrite <- Hq'.
  apply vars_eq in Hq' as (_ & Hb' & He' & _).
  apply stage_all_known; [|done].
  intros c Hc. rewrite He'. apply elem_of_known_codes, Hknown.
  unfold traversal_records. rewrite (catalog_fetched env links H).
  apply list_elem_of_bind. exists category. split; [|done].
  apply list_elem_of_bind. by exists subject.
Qed.

Lemma known_traversal (env : Env) :
  (∀ c, c ∈ traversal_records env → code c ∈ Classes env) →
  (∀ k, (stage_all env (take k (traversal_records env)) (start env)).1 = Return tt
        ∧ vars (after env k) = vars (start env))
  ∧ match catalog env with
    | Return _ => (main env fresh).1 = Return tt
                  ∧ vars (main env fresh).2 = vars (start env)
    | Raise _ => main env fresh = (Raise ValueError, fresh)
    end.
Proof.
  intros Hknown. split.
  { intros k. apply stage_all_known; [|done].
    intros c Hc. apply elem_of_known_codes, Hknown.
    by apply (subseteq_take k). }
  destruct (catalog env) as [links|e] eqn:H; [|by apply (main_abort env e)].
  destruct (known_traverse env links H Hknown) as [Hr Hv].
  apply vars_eq in Hv as Hv'. destruct Hv' as (_ & Hb & _).
  rewrite (main_unfold env links H), flush_remainder_empty by done.
  cbn. by rewrite ?add_logs_vars.
Qed.

(** When no insert is refused, the code of every record of the
    traversal is in the end in the table read at start or among the codes
    inserted. *)
Lemma main_codes (env : Env) (c : Course) :
  reliable env →
  c ∈ traversal_records env →
  code c ∈ Classes env
  ∨ code c ∈ map code (concat (inserted (main env fresh).2)).
Proof.
  intros Hrel Hc.
  destruct (stage_all_codes env (traversal_records env) (start env) Hrel
              (start_codes env)) as (Hinv & Hall & _).
  destruct (traverse_locals env Hrel) as (_ & Hb & Hi).
  pose proof (main_vars_flush env) as (_ & _ & _ & Hm)%vars_eq.
  specialize (Hall c Hc). apply Hinv in Hall.
  destruct Hall as [?|Hall]; [by left|right].
  rewrite Hm. rewrite <- Hb, <- Hi in Hall.
  destruct (decide (batch (traverse env fresh).2 = [])) as [E|E].
  - rewrite flush_remainder_empty by done. by rewrite E, app_nil_r in Hall.
  - rewrite flush_remainder_accepted by (done || apply Hrel).
    cbn. rewrite concat_app. cbn. by rewrite app_nil_r.
Qed.

(** The three records of the first scenario, staged from the locals of
    the start: no flush is due, so the driver is not asked. *)
Lemma scenario_staging (env : Env) (c1 c2 c3 : Course) (q : Process) :
  code c1 = "CS 101" → code c2 = "CS 101" → code c3 = "MATH 200" →
  "CS 101" ∈ Classes env →
  "MATH 200" ∉ Classes env →
  vars q = vars (start env) →
  vars (stage_all env [c1; c2; c3] q).2
  = (1, [c3], known_codes env ∪ {["MATH 200"]}, []).
Proof.
  intros Hc1 Hc2 Hc3 Hin Hnotin (Hc & Hb & He & Hi)%vars_eq. cbn in Hc, Hb, He, Hi.
  rewrite stage_all_step, (step_known env c1);
    [|rewrite Hc1, He; by apply elem_of_known_codes
     |rewrite Hb; cbn; unfold BATCH_SIZE; lia].
  rewrite stage_all_step, (step_known env c2);
    [|rewrite Hc2; cbn; rewrite He; by apply elem_of_known_codes
     |cbn; rewrite Hb; cbn; unfold BATCH_SIZE; lia].
  rewrite stage_all_step, (step_fresh env c3);
    [|rewrite Hc3; cbn; by rewrite He, elem_of_known_codes
     |cbn; rewrite Hb; cbn; unfold BATCH_SIZE; lia].
  cbn. unfold vars. cbn. by rewrite Hc, Hb, He, Hi, Hc3.
Qed.

(** ** The run *)

(** C1.  When the traversal yields one category, one subject and three
    course blocks parsed to records with codes "CS 101", "CS 101" and
    "MATH 200", and the table read at start holds "CS 101" and does not
    hold "MATH 200" (the table of the scenario holds "CS 101" only),
    then exactly one record is staged, the third: at the end of the
    traversal, which returns, the counter is 1, the batch is that
    record, and its code has joined the known codes; no insert has been
    asked for until then.  The final flush passes that one record to the
    driver: the run returns and the record is inserted when the driver
    accepts it, and the run ends with the driver's exception and nothing
    inserted when it does not.  In general, staging a record whose code
    is known leaves the locals as they are; otherwise the record is
    appended to the batch, counted, and its code is added to the known
    codes. *)
Theorem scenario_one_new_record (env : Env) (category subject : string)
    (b1 b2 b3 : bs4.Tag) (c1 c2 c3 : Course) :
  fetched (fetch_category_links env BASE_URL) = [category] →
  fetched (fetch_subject_links env category) = [subject] →
  fetch_courses env subject = Return [b1; b2; b3] →
  extract_course_info b1 = Return c1 →
  extract_course_info b2 = Return c2 →
  extract_course_info b3 = Return c3 →
  code c1 = "CS 101" → code c2 = "CS 101" → code c3 = "MATH 200" →
  "CS 101" ∈ Classes env →
  "MATH 200" ∉ Classes env →
  traversal_records env = [c1; c2; c3]
  ∧ (traverse env fresh).1 = Return tt
  ∧ counter (traverse env fresh).2 = 1
  ∧ batch (traverse env fresh).2 = [c3]
  ∧ existing_codes (traverse env fresh).2 = known_codes env ∪ {["MATH 200"]}
  ∧ inserted (traverse env fresh).2 = []
  ∧ counter (main env fresh).2 = 1
  ∧ (if accepts env (traverse env fresh).2 [c3]
     then (main env fresh).1 = Return tt
          ∧ inserted (main env fresh).2 = [[c3]]
     else (main env fresh).1 = Raise pyodbc_Error
          ∧ inserted (main env fresh).2 = [])
  ∧ ∀ (c : Course) (q : Process),
      let q' := (stage_if_new c q).2 in
      if bool_decide (code c ∈ existing_codes q)
      then vars q' = vars q
      else batch q' = batch q ++ [c]
           ∧ counter q' = counter q + 1
           ∧ existing_codes q' = existing_codes q ∪ {[code c]}
           ∧ inserted q' = inserted q.
Proof.
  intros Hcat Hsubj Hcourses H1 H2 H3 Hc1 Hc2 Hc3 Hin Hnotin.
  assert (catalog env = Return [category]) as Hlinks.
  { unfold fetched in Hcat. unfold catalog.
    by destruct (fetch_category_links env BASE_URL fresh).1 as [l|e]; subst. }
  assert (subject_records env subject = [c1; c2; c3]) as Hsubject.
  { unfold subject_records. rewrite Hcourses. cbn. by rewrite H1, H2, H3. }
  assert (traversal_records env = [c1; c2; c3]) as Hrecords.
  { unfold traversal_records. rewrite Hcat. cbn. rewrite Hsubj. cbn.
    by rewrite Hsubject. }
  pose proof (traverse_returns env _ Hlinks) as Hret.
  assert (vars (traverse env fresh).2
          = (1, [c3], known_codes env ∪ {["MATH 200"]}, [])) as Ht.
  { rewrite (traverse_unfold env _ Hlinks). cbn [for_each].
    rewrite (bind_run _ _ _ tt) by apply process_category_returns.
    cbn. rewrite process_category_state, Hsubj. cbn [for_each].
    rewrite (bind_run _ _ _ tt) by apply process_subject_run.
    cbn. destruct (process_subject_run env subject
                     (add_logs (emitted (fetch_subject_links env category))
                        (add_logs (emitted (fetch_category_links env BASE_URL))
                           (start env)))) as [_ ->].
    rewrite Hsubject. by apply scenario_staging. }
  unfold vars in Ht. injection Ht as Hcount Hbatch Hcodes Hins.
  split; [done|]. do 5 (split; [done|]).
  assert (batch (traverse env fresh).2 ≠ []) as Hne by by rewrite Hbatch.
  rewrite (main_unfold env _ Hlinks), <- Hbatch.
  destruct (accepts env (traverse env fresh).2 (batch (traverse env fresh).2)) eqn:Hok.
  - rewrite flush_remainder_accepted by done. cbn. rewrite Hins.
    split; [done|]. split; [done|]. apply stage_if_new_cases.
  - rewrite flush_remainder_refused by done. cbn.
    split; [done|]. split; [done|]. apply stage_if_new_cases.
Qed.

Lemma scenario_one_new_record_witness :
  "CS 101" ∈ Classes Fixture.small_env
  ∧ ("MATH 200" ∉ Classes Fixture.small_env)
  ∧ traversal_records Fixture.small_env
    = [Fixture.cs_101; Fixture.cs_101_again; Fixture.math_200]
  ∧ counter (main Fixture.small_env fresh).2 = 1
  ∧ inserted (main Fixture.small_env fresh).2 = [[Fixture.math_200]].
Proof.
  assert ("CS 101" ∈ Classes Fixture.small_env) as Hin by by left.
  assert ("MATH 200" ∉ Classes Fixture.small_env) as Hnotin
    by by intros ?%list_elem_of_singleton.
  destruct (scenario_one_new_record Fixture.small_env "/cat" "/subj"
              (Fixture.block "CS" "101" "Intro" "3 Credits")
              (Fixture.block "CS" "101" "Intro again" "3 Credits")
              (Fixture.block "MATH" "200" "Calculus" "1-3 Credits")
              Fixture.cs_101 Fixture.cs_101_again Fixture.math_200
              eq_refl eq_refl eq_refl eq_refl eq_refl eq_refl
              eq_refl eq_refl eq_refl Hin Hnotin)
    as (Hrecords & _ & _ & _ & _ & _ & Hcounter & [_ Hinserted] & _).
  by repeat split.
Defined.




(** A run over 230 new records: two flushes of 100 in the loop, and a
    final flush of the remaining 30. *)
Lemma flush_230_records :
  counter (traverse Fixture.large_env fresh).2 = 230
  ∧ map length (inserted (traverse Fixture.large_env fresh).2) = [100; 100]
  ∧ length (batch (traverse Fixture.large_env fresh).2) = 30
  ∧ map length (inserted (main Fixture.large_env fresh).2) = [100; 100; 30].
Proof. vm_compute. by repeat split. Qed.

(** C3.  If the code of every record the traversal yields is in the
    table read at start, the run stages nothing: it ends with the counter
    at 0, the batch empty and nothing inserted, and after any number of
    records of the traversal the locals are what they were at start.  The
    driver is never called; the run returns, with the known codes those
    read at start, unless [urljoin] raises on a link of the catalogue
    page, which ends the run before any page of courses is read. *)
Theorem known_codes_stage_nothing (env : Env) :
  (∀ c, c ∈ traversal_records env → code c ∈ Classes env) →
  counter (main env fresh).2 = 0
  ∧ batch (main env fresh).2 = []
  ∧ inserted (main env fresh).2 = []
  ∧ (∀ k, vars (after env k) = vars (start env))
  ∧ match catalog env with
    | Return _ => (main env fresh).1 = Return tt
                  ∧ existing_codes (main env fresh).2 = known_codes env
    | Raise _ => main env fresh = (Raise ValueError, fresh)
    end.
Proof.
  intros Hknown.
  destruct (known_traversal env Hknown) as (Hafter & Hend).
  destruct (catalog env) as [links|e].
  - destruct Hend as [Hret (? & ? & ? & ?)%vars_eq].
    repeat split; try done. apply Hafter.
  - rewrite Hend. repeat split; try done. apply Hafter.
Qed.

Lemma known_codes_stage_nothing_witness :
  (∀ c, c ∈ traversal_records Fixture.populated_env →
        code c ∈ Classes Fixture.populated_env)
  ∧ traversal_records Fixture.populated_env
    = [Fixture.cs_101; Fixture.cs_101_again; Fixture.math_200]
  ∧ counter (main Fixture.populated_env fresh).2 = 0
  ∧ inserted (main Fixture.populated_env fresh).2 = [].
Proof.
  assert (∀ c, c ∈ traversal_records Fixture.populated_env →
               code c ∈ Classes Fixture.populated_env) as Hknown.
  { intros c Hc.
    change (c ∈ [Fixture.cs_101; Fixture.cs_101_again; Fixture.math_200]) in Hc.
    rewrite !elem_of_cons, elem_of_nil in Hc.
    destruct Hc as [->|[->|[->|[]]]]; cbn; rewrite !elem_of_cons; auto. }
  destruct (known_codes_stage_nothing Fixture.populated_env Hknown)
    as (Hcounter & _ & Hins & _).
  by repeat split.
Defined.

Lemma traversal_records_rerun (env : Env) :
  traversal_records (rerun env) = traversal_records env.
Proof. reflexivity. Qed.

(** The catalogue page of the second run is that of the first. *)
Lemma catalog_rerun (env : Env) : catalog (rerun env) = catalog env.
Proof. reflexivity. Qed.

(** The second run after a first one in which no insert was refused. *)
Lemma rerun_known (env : Env) :
  reliable env →
  ∀ c, c ∈ traversal_records (rerun env) → code c ∈ Classes (rerun env).
Proof.
  intros Hrel c Hc. rewrite traversal_records_rerun in Hc.
  unfold rerun. cbn [Classes]. rewrite elem_of_app. by apply main_codes.
Qed.

(** C7.  When a subject page is served without the course-description
    container, [fetch_courses] raises (it has no handler of its own); the
    error is caught at the subject in [main], which logs it and leaves
    counter, batch, known codes and insertions untouched; the loop goes
    on with the next subject.  No subject ever makes the loop over the
    subjects raise. *)
Theorem missing_course_container (env : Env) (subject : string) (r : Response) :
  served env subject r →
  bs4.find_class "div" "sc_sccoursedescs" (soup r) = None →
  fetch_courses env subject = Raise AttributeError
  ∧ (∀ p, process_subject env subject p
          = (Return tt, add_logs [error_processing_course subject AttributeError] p))
  ∧ (∀ p, vars (process_subject env subject p).2 = vars p)
  ∧ (∀ rest p,
       for_each (subject :: rest) (process_subject env) p
       = for_each rest (process_subject env)
           (add_logs [error_processing_course subject AttributeError] p))
  ∧ (∀ subject' p, (process_subject env subject' p).1 = Return tt).
Proof.
  intros [Hget Hstatus] Hfind.
  assert (fetch_courses env subject = Raise AttributeError) as Hfetch.
  { unfold fetch_courses, get_url. rewrite Hget. cbn. rewrite Hstatus. cbn.
    by rewrite Hfind. }
  assert (∀ p, process_subject env subject p
               = (Return tt, add_logs [error_processing_course subject AttributeError] p))
    as Hskip.
  { intros p. unfold process_subject. run. by rewrite Hfetch. }
  split; [done|]. split; [done|]. split; [intros p; by rewrite Hskip|].
  split; [|intros s p; apply process_subject_run].
  intros rest p. cbn [for_each]. by rewrite (bind_run _ _ _ tt), Hskip by by rewrite Hskip.
Qed.

Lemma missing_course_container_witness :
  served Fixture.broken_subject_env "/broken"
    (Fixture.page [inr (Fixture.el "div" ["other"] [])])
  ∧ fetch_courses Fixture.broken_subject_env "/broken" = Raise AttributeError
  ∧ for_each ["/broken"; "/subj"] (process_subject Fixture.broken_subject_env)
      (start Fixture.broken_subject_env)
    = for_each ["/subj"] (process_subject Fixture.broken_subject_env)
        (add_logs [error_processing_course "/broken" AttributeError]
           (start Fixture.broken_subject_env))
  ∧ batch (main Fixture.broken_subject_env fresh).2 = [Fixture.math_200].
Proof.
  assert (served Fixture.broken_subject_env "/broken"
            (Fixture.page [inr (Fixture.el "div" ["other"] [])])) as Hserved
    by by split.
  destruct (missing_course_container Fixture.broken_subject_env "/broken" _
              Hserved eq_refl) as (Hfetch & _ & _ & Hnext & _).
  split; [done|]. split; [done|]. split; [apply Hnext|by vm_compute].
Defined.

(** C8 (as amended).  When a category page is served without the
    site-map container, the error raised by the lookup is caught inside
    [fetch_subject_links], which logs it and returns the empty list;
    [main] therefore finds no subject in the category, and goes on with
    the next category. *)
Theorem missing_sitemap_container (env : Env) (category : string) (r : Response) :
  served env category r →
  bs4.find_class "div" "az_sitemap" (soup r) = None →
  (∀ p, fetch_subject_links env category p
        = (Return [],
           add_logs [error_fetching_subject_links category AttributeError] p))
  ∧ (∀ p, process_category env category p
          = (Return tt,
             add_logs [error_fetching_subject_links category AttributeError] p))
  ∧ (∀ rest p,
       for_each (category :: rest) (process_category env) p
       = for_each rest (process_category env)
           (add_logs [error_fetching_subject_links category AttributeError] p)).
Proof.
  intros [Hget Hstatus] Hfind.
  assert (∀ p, fetch_subject_links env category p
               = (Return [],
                  add_logs [error_fetching_subject_links category AttributeError] p))
    as Hfetch.
  { intros p. unfold fetch_subject_links, get_url. run.
    rewrite Hget. cbn. rewrite Hstatus. cbn. by rewrite Hfind. }
  assert (∀ p, process_category env category p
               = (Return tt,
                  add_logs [error_fetching_subject_links category AttributeError] p))
    as Hskip.
  { intros p. unfold process_category, try_except.
    by rewrite (bind_run _ _ _ []), Hfetch by by rewrite Hfetch. }
  split; [done|]. split; [done|].
  intros rest p. cbn [for_each]. by rewrite (bind_run _ _ _ tt), Hskip by by rewrite Hskip.
Qed.

Lemma missing_sitemap_container_witness :
  served Fixture.bare_category_env "/bare"
    (Fixture.page [inr (Fixture.el "p" [] [inl "Nothing here."])])
  ∧ fetch_subject_links Fixture.bare_category_env "/bare" fresh
    = (Return [],
       add_logs [error_fetching_subject_links "/bare" AttributeError] fresh)
  ∧ batch (main Fixture.bare_category_env fresh).2 = [Fixture.math_200].
Proof.
  assert (served Fixture.bare_category_env "/bare"
            (Fixture.page [inr (Fixture.el "p" [] [inl "Nothing here."])]))
    as Hserved by by split.
  destruct (missing_sitemap_container Fixture.bare_category_env "/bare" _
              Hserved eq_refl) as (Hfetch & _ & _).
  split; [done|]. split; [apply Hfetch|by vm_compute].
Defined.

(** C8 as stated fails: on a category page without the site-map
    container [fetch_subject_links] returns the empty list; no exception
    leaves it. *)
Lemma subject_links_error_not_propagated :
  served Fixture.bare_category_env "/bare"
    (Fixture.page [inr (Fixture.el "p" [] [inl "Nothing here."])])
  ∧ bs4.find_class "div" "az_sitemap"
      (soup (Fixture.page [inr (Fixture.el "p" [] [inl "Nothing here."])]))
    = None
  ∧ (fetch_subject_links Fixture.bare_category_env "/bare" fresh).1 = Return []
  ∧ ∀ e, (fetch_subject_links Fixture.bare_category_env "/bare" fresh).1 ≠ Raise e.
Proof. by repeat split. Qed.

(** C10.  When the request for the catalogue fails (the transport
    raises or the status is an error status), [fetch_category_links]
    catches the error, logs it and returns the empty list; the run ends
    normally with nothing staged and nothing inserted, and it returns the
    same value and leaves the same locals and insertions as a run on any
    site whose catalogue lists no category, given the same table. *)
Theorem failed_catalog_request (env : Env) :
  request_fails env BASE_URL →
  (∃ e, is_RequestException e = true
        ∧ ∀ p, fetch_category_links env BASE_URL p
               = (Return [], add_logs [error_fetching_category_links e] p))
  ∧ (main env fresh).1 = Return tt
  ∧ counter (main env fresh).2 = 0
  ∧ batch (main env fresh).2 = []
  ∧ inserted (main env fresh).2 = []
  ∧ ∀ env',
      empty_catalog env' →
      Classes env' = Classes env →
      (main env' fresh).1 = (main env fresh).1
      ∧ vars (main env' fresh).2 = vars (main env fresh).2.
Proof.
  intros Hfails. destruct (request_fails_fetch env Hfails) as (e & He & Hfetch).
  assert (catalog env = Return []) as Hnone
    by (unfold catalog; by rewrite Hfetch).
  destruct (main_no_categories env Hnone) as [Hret Hvars].
  split; [by exists e|]. split; [done|].
  pose proof Hvars as (? & ? & _ & ?)%vars_eq. do 3 (split; [done|]).
  intros env' Hempty Hsame.
  destruct (main_no_categories env' (empty_catalog_fetch env' Hempty)) as [-> ->].
  rewrite Hret, Hvars. split; [done|].
  unfold start, known_codes. by rewrite Hsame.
Qed.

Lemma failed_catalog_request_witness :
  request_fails Fixture.unreachable_env BASE_URL
  ∧ empty_catalog Fixture.no_categories_env
  ∧ (main Fixture.unreachable_env fresh).1 = Return tt
  ∧ inserted (main Fixture.unreachable_env fresh).2 = []
  ∧ vars (main Fixture.no_categories_env fresh).2
    = vars (main Fixture.unreachable_env fresh).2.
Proof.
  assert (request_fails Fixture.unreachable_env BASE_URL) as Hfails by done.
  assert (empty_catalog Fixture.no_categories_env) as Hempty.
  { exists (Fixture.page [inr (Fixture.el "p" [] [inl "Under construction."])]).
    by repeat split. }
  destruct (failed_catalog_request Fixture.unreachable_env Hfails)
    as (_ & Hret & _ & _ & Hins & Hsame).
  destruct (Hsame Fixture.no_categories_env Hempty eq_refl) as [_ Hvars].
  by repeat split.
Defined.


(** ** What the traversal keeps true *)

Lemma preserves_ret {A} (I : Process → Prop) (a : A) : preserves I (mret a : M A).
Proof. by intros p. Qed.

Lemma preserves_lift {A} (I : Process → Prop) (o : Outcome A) : preserves I (lift o).
Proof. by intros p. Qed.

Lemma preserves_bind {A B} (I : Process → Prop) (m : M A) (f : A → M B) :
  preserves I m → (∀ a, preserves I (f a)) → preserves I (m ≫= f).
Proof.
  intros Hm Hf p Hp. specialize (Hm p Hp). unfold mbind, M_bind.
  destruct (m p) as [[a|e] p']; [by apply Hf|done].
Qed.

Lemma preserves_try_except {A} (I : Process → Prop) (m : M A)
    (h : Exception → option (M A)) :
  preserves I m →
  (∀ e handler, h e = Some handler → preserves I handler) →
  preserves I (try_except m h).
Proof.
  intros Hm Hh p Hp. specialize (Hm p Hp). unfold try_except.
  destruct (m p) as [[a|e] p']; [done|].
  destruct (h e) as [handler|] eqn:He; [by apply (Hh e)|done].
Qed.

Lemma preserves_for_each {A} (I : Process → Prop) (l : list A) (body : A → M unit) :
  (∀ x, preserves I (body x)) → preserves I (for_each l body).
Proof.
  intros Hbody. induction l as [|x l IH]; [by intros p|].
  cbn [for_each]. apply preserves_bind; [apply Hbody|by intros _].
Qed.

(** A property that the log records of the fetchers and of the handlers
    keep, that staging keeps and that the flush check keeps, whether the
    insert is accepted or refused, is kept by the whole traversal. *)
Section Invariant.

Variable env : Env.
Variable I : Process → Prop.
Hypothesis I_logging : ∀ r, quiet r → preserves I (logging r).
Hypothesis I_stage_if_new : ∀ c, preserves I (stage_if_new c).
Hypothesis I_flush_if_full : preserves I (flush_if_full env).

Lemma inv_fetch_category_links (base_url : string) :
  preserves I (fetch_category_links env base_url).
Proof.
  unfold fetch_category_links. apply preserves_try_except.
  - apply preserves_bind; [apply preserves_lift|]. intros r.
    apply preserves_bind; [apply preserves_lift|]. intros _.
    destruct (bs4.find_id _ _ _).
    + apply preserves_bind; [apply preserves_lift|]. intros links.
      apply preserves_bind; [apply I_logging; by split|]. intros _. apply preserves_ret.
    + apply preserves_bind; [apply I_logging; by split|]. intros _. apply preserves_ret.
  - intros e handler. destruct (is_RequestException e); [|done]. intros [= <-].
    apply preserves_bind; [apply I_logging; by split|]. intros _. apply preserves_ret.
Qed.

Lemma inv_fetch_subject_links (category : string) :
  preserves I (fetch_subject_links env category).
Proof.
  unfold fetch_subject_links. apply preserves_try_except.
  - apply preserves_bind; [apply preserves_lift|]. intros r.
    apply preserves_bind; [apply preserves_lift|]. intros _.
    apply preserves_bind; [apply preserves_lift|]. intros az.
    apply preserves_bind; [apply preserves_lift|]. intros links.
    apply preserves_bind; [apply I_logging; by split|]. intros _. apply preserves_ret.
  - intros e handler. destruct (is_HTTPError e); intros [= <-];
      (apply preserves_bind; [apply I_logging; by split|]); intros _;
      apply preserves_ret.
Qed.

Lemma inv_process_subject (subject : string) :
  preserves I (process_subject env subject).
Proof.
  unfold process_subject. apply preserves_try_except.
  - apply preserves_bind; [apply preserves_lift|]. intros [|course courses].
    + apply I_logging; by split.
    + apply preserves_for_each. intros b. unfold process_course.
      apply preserves_bind; [apply preserves_lift|]. intros c.
      apply preserves_bind; [apply I_stage_if_new|]. intros _.
      apply I_flush_if_full.
  - intros e handler [= <-]. apply I_logging; by split.
Qed.

Lemma inv_process_category (category : string) :
  preserves I (process_category env category).
Proof.
  unfold process_category. apply preserves_try_except.
  - apply preserves_bind; [apply inv_fetch_subject_links|]. intros subjects.
    apply preserves_for_each. apply inv_process_subject.
  - intros e handler. destruct (is_RequestException e); intros [= <-];
      apply I_logging; by split.
Qed.

Lemma inv_traverse (links : list string) :
  catalog env = Return links → I (start env) → I (traverse env fresh).2.
Proof.
  intros H Hstart. rewrite (traverse_unfold env links H).
  apply preserves_for_each; [apply inv_process_category|].
  pose proof (inv_fetch_category_links BASE_URL (start env) Hstart) as Hf.
  unfold catalog in H. by rewrite fetch_category_links_run, H in Hf.
Qed.

End Invariant.

(** ** What a run inserts *)

Lemma new_records_not_known (known : gset string) (cs : list Course) (c : Course) :
  c ∈ new_records known cs → code c ∉ known.
Proof.
  revert known. induction cs as [|c' cs IH]; intros known; cbn [new_records].
  - by intros ?%elem_of_nil.
  - case_bool_decide as Hk.
    + apply IH.
    + intros [->|Hc]%elem_of_cons; [done|].
      apply IH in Hc. intros Hin. apply Hc. by apply elem_of_union_l.
Qed.

Lemma new_records_NoDup (known : gset string) (cs : list Course) :
  NoDup (map code (new_records known cs)).
Proof.
  revert known. induction cs as [|c cs IH]; intros known; cbn [new_records].
  - constructor.
  - case_bool_decide as Hk; [apply IH|].
    cbn [map]. constructor; [|apply IH].
    intros (c' & Hcode & Hc')%list_elem_of_fmap.
    apply new_records_not_known in Hc'. apply Hc'.
    rewrite <- Hcode. by apply elem_of_union_r, elem_of_singleton.
Qed.

Lemma new_records_cover (known : gset string) (cs : list Course) (c : Course) :
  c ∈ cs → code c ∈ known ∨ code c ∈ map code (new_records known cs).
Proof.
  revert known. induction cs as [|c' cs IH]; intros known; cbn [new_records].
  - by intros ?%elem_of_nil.
  - intros [->|Hc]%elem_of_cons.
    + case_bool_decide as Hk; [by left|right]. cbn [map]. by left.
    + case_bool_decide as Hk; [by apply IH|].
      destruct (IH (known ∪ {[code c']}) Hc) as [Hin|Hin].
      * apply elem_of_union in Hin as [Hin|Hin%elem_of_singleton]; [by left|].
        right. cbn [map]. rewrite Hin. by left.
      * right. cbn [map]. by right.
Qed.

Lemma new_records_sublist (known : gset string) (cs : list Course) :
  new_records known cs `sublist_of` cs.
Proof.
  revert known. induction cs as [|c cs IH]; intros known; cbn [new_records].
  - constructor.
  - case_bool_decide; [by apply sublist_cons|by apply sublist_skip].
Qed.

(** The flush check moves staged records from the batch to the table
    or leaves them where they are: it loses none and adds none. *)
Lemma flush_if_full_staged (env : Env) (q : Process) :
  staged (flush_if_full env q).2 = staged q
  ∧ existing_codes (flush_if_full env q).2 = existing_codes q
  ∧ counter (flush_if_full env q).2 = counter q.
Proof.
  destruct (decide (length (batch q) < BATCH_SIZE)) as [Hlt|Hge].
  - by rewrite flush_if_full_below.
  - destruct (accepts env q (batch q)) eqn:Hok.
    + rewrite flush_if_full_reached by (done || lia). unfold staged. cbn.
      rewrite concat_app. cbn. by rewrite !app_nil_r.
    + by rewrite flush_if_full_refused by (done || lia).
Qed.

(** One record through staging and flush check: the record joins the
    staged ones unless its code is known. *)
Lemma step_staged (env : Env) (c : Course) (p : Process) :
  let p' := (flush_if_full env (stage_if_new c p).2).2 in
  if bool_decide (code c ∈ existing_codes p)
  then staged p' = staged p
       ∧ existing_codes p' = existing_codes p
       ∧ counter p' = counter p
  else staged p' = staged p ++ [c]
       ∧ existing_codes p' = existing_codes p ∪ {[code c]}
       ∧ counter p' = counter p + 1.
Proof.
  cbn zeta. destruct (flush_if_full_staged env (stage_if_new c p).2) as (-> & -> & ->).
  case_bool_decide as Hk.
  - by rewrite stage_if_new_known.
  - rewrite stage_if_new_fresh by done. unfold staged. cbn.
    by rewrite app_assoc.
Qed.

Lemma stage_all_staged (env : Env) (cs : list Course) (p : Process) :
  reliable env →
  let p' := (stage_all env cs p).2 in
  staged p' = staged p ++ new_records (existing_codes p) cs
  ∧ counter p' = counter p + length (new_records (existing_codes p) cs)
  ∧ (∀ x, x ∈ existing_codes p' ↔ x ∈ existing_codes p ∨ x ∈ map code cs).
Proof.
  intros Hrel. revert p. induction cs as [|c cs IH]; intros p.
  - cbn. rewrite app_nil_r. split; [done|]. split; [lia|].
    intros x. rewrite elem_of_nil. tauto.
  - cbn zeta. rewrite stage_all_cons by by apply flush_if_full_returns.
    cbn [new_records map].
    pose proof (step_staged env c p) as Hstep. cbn zeta in Hstep.
    destruct (IH (flush_if_full env (stage_if_new c p).2).2) as (Hs & Hc & He).
    rewrite Hs, Hc. clear Hs Hc.
    case_bool_decide as Hk; destruct Hstep as (-> & Hcodes & ->).
    + rewrite Hcodes in *. split; [done|]. split; [done|].
      intros x. rewrite He, elem_of_cons. split; [tauto|].
      intros [?|[->|?]]; auto.
    + rewrite Hcodes in *. split; [by rewrite <- app_assoc|].
      split; [cbn; lia|].
      intros x. rewrite He, elem_of_union, elem_of_singleton, elem_of_cons. tauto.
Qed.

(** The final flush keeps the counter and the known codes, and what is
    in the table after it are staged records, in order: all of them when
    the insert is accepted. *)
Lemma flush_remainder_keeps (env : Env) (p : Process) :
  counter (flush_remainder env p).2 = counter p
  ∧ existing_codes (flush_remainder env p).2 = existing_codes p
  ∧ ∃ pending, staged p = concat (inserted (flush_remainder env p).2) ++ pending.
Proof.
  destruct (decide (batch p = [])) as [Hb|Hb].
  - rewrite flush_remainder_empty by done. by repeat split; exists (batch p).
  - destruct (accepts env p (batch p)) eqn:Hok.
    + rewrite flush_remainder_accepted by done. cbn. split; [done|]. split; [done|].
      exists []. unfold staged. rewrite concat_app. cbn. by rewrite !app_nil_r.
    + rewrite flush_remainder_refused by done. by repeat split; exists (batch p).
Qed.

Lemma flush_remainder_batches (env : Env) (p : Process) :
  reliable env →
  inserted (flush_remainder env p).2
  = inserted p ++ match batch p with [] => [] | _ => [batch p] end.
Proof.
  intros Hrel. destruct (decide (batch p = [])) as [Hb|Hb].
  - rewrite flush_remainder_empty by done. by rewrite Hb, app_nil_r.
  - rewrite flush_remainder_accepted by (done || apply Hrel). cbn.
    by destruct (batch p).
Qed.

(** When no insert is refused, the counter and the batches a run ends
    with are those of staging the records of the traversal and flushing
    the rest. *)
Lemma main_locals (env : Env) :
  reliable env →
  let q := (stage_all env (traversal_records env) (start env)).2 in
  counter (main env fresh).2 = counter q
  ∧ inserted (main env fresh).2
    = inserted q ++ match batch q with [] => [] | _ => [batch q] end.
Proof.
  intros Hrel. cbn zeta.
  pose proof (main_vars_flush env) as (-> & _ & _ & ->)%vars_eq.
  destruct (traverse_locals env Hrel) as (Hc & Hb & Hi).
  destruct (flush_remainder_keeps env (traverse env fresh).2) as (-> & _).
  by rewrite flush_remainder_batches, Hc, Hb, Hi.
Qed.

Lemma main_inserted (env : Env) :
  reliable env →
  concat (inserted (main env fresh).2)
  = new_records (known_codes env) (traversal_records env)
  ∧ counter (main env fresh).2
    = length (new_records (known_codes env) (traversal_records env)).
Proof.
  intros Hrel. destruct (main_locals env Hrel) as [-> ->].
  destruct (stage_all_staged env (traversal_records env) (start env) Hrel)
    as (Hs & Hc & _).
  split; [|exact Hc]. unfold staged in Hs. cbn in Hs. rewrite <- Hs.
  rewrite concat_app. destruct (batch _); cbn; by rewrite ?app_nil_r.
Qed.

Lemma chunks_nil {A} (fuel n : nat) : chunks fuel n (@nil A) = [].
Proof. by destruct fuel. Qed.

(** Full groups followed by a shorter rest are the chunks of their
    concatenation. *)
Lemma chunks_concat {A} (n : nat) (bs : list (list A)) (r : list A) (fuel : nat) :
  0 < n →
  Forall (fun b => length b = n) bs →
  length r < n →
  length bs + length r ≤ fuel →
  chunks fuel n (concat bs ++ r)
  = bs ++ match r with [] => [] | _ => [r] end.
Proof.
  intros Hn Hbs Hr. revert fuel.
  induction Hbs as [|b bs Hb _ IH]; intros fuel Hfuel.
  - cbn [concat app]. destruct r as [|x r']; [apply chunks_nil|].
    destruct fuel as [|fuel]; [cbn in Hfuel; lia|]. cbn [chunks].
    rewrite take_ge, drop_ge by lia. by rewrite chunks_nil.
  - destruct fuel as [|fuel]; [cbn in Hfuel; lia|].
    destruct b as [|x b']; [cbn in Hb; lia|].
    cbn [concat]. rewrite <- app_assoc.
    change (chunks (S fuel) n ((x :: b') ++ concat bs ++ r))
      with (take n ((x :: b') ++ concat bs ++ r)
            :: chunks fuel n (drop n ((x :: b') ++ concat bs ++ r))).
    rewrite take_app_length', drop_app_length' by done.
    cbn [app]. f_equal. apply IH. cbn in Hfuel. lia.
Qed.

Lemma groups_le_concat {A} (n : nat) (bs : list (list A)) :
  0 < n → Forall (fun b => length b = n) bs → length bs ≤ length (concat bs).
Proof.
  intros Hn. induction 1 as [|b bs Hb _ IH]; [done|].
  cbn [concat length]. rewrite length_app. lia.
Qed.

(** X1.  In a run in which the driver refuses no insert and no commit,
    the batches inserted are the new records of the traversal (those
    whose code is neither in the table read at start nor met earlier in
    the run), in the order the traversal meets them, cut into consecutive
    groups of 100 with a shorter last group for the remainder; the
    counter is their number. *)
Theorem main_inserts_new_records_in_chunks (env : Env) :
  reliable env →
  inserted (main env fresh).2
  = chunks (length (new_records (known_codes env) (traversal_records env)))
      BATCH_SIZE (new_records (known_codes env) (traversal_records env))
  ∧ concat (inserted (main env fresh).2)
    = new_records (known_codes env) (traversal_records env)
  ∧ counter (main env fresh).2
    = length (new_records (known_codes env) (traversal_records env)).
Proof.
  intros Hrel. destruct (main_inserted env Hrel) as (Hconcat & Hcounter).
  split; [|by split].
  destruct (main_locals env Hrel) as [_ ->].
  pose proof (stage_all_inv env (traversal_records env) (start env) Hrel
                (start_inv env)) as (Hlt & Hall & Hcount).
  destruct (stage_all_staged env (traversal_records env) (start env) Hrel)
    as (Hs & _).
  unfold staged in Hs. cbn in Hs. rewrite <- Hs.
  symmetry. apply chunks_concat; [unfold BATCH_SIZE; lia|done|done|].
  rewrite length_app.
  pose proof (groups_le_concat BATCH_SIZE _ ltac:(unfold BATCH_SIZE; lia) Hall).
  lia.
Qed.

Lemma main_inserts_new_records_in_chunks_witness :
  reliable Fixture.small_env
  ∧ concat (inserted (main Fixture.small_env fresh).2)
    = new_records (known_codes Fixture.small_env)
        (traversal_records Fixture.small_env).
Proof.
  assert (reliable Fixture.small_env) as Hrel by (intros p b; reflexivity).
  destruct (main_inserts_new_records_in_chunks Fixture.small_env Hrel)
    as (_ & Hconcat & _).
  exact (conj Hrel Hconcat).
Defined.

Lemma staged_inv_logging (env : Env) (r : LogRecord) :
  preserves (staged_inv env) (logging r).
Proof. by intros p. Qed.

Lemma staged_inv_stage_if_new (env : Env) (c : Course) :
  preserves (staged_inv env) (stage_if_new c).
Proof.
  intros p (Hnodup & Hstaged & Htable).
  destruct (decide (code c ∈ existing_codes p)) as [Hk|Hk].
  - by rewrite stage_if_new_known.
  - rewrite stage_if_new_fresh by done. unfold staged_inv, staged in *. cbn.
    rewrite app_assoc. split; [|split].
    + rewrite map_app. apply NoDup_app. split; [done|]. split.
      * intros x (c' & -> & Hc')%list_elem_of_fmap Hx.
        apply list_elem_of_singleton in Hx. apply Hk. rewrite <- Hx.
        by apply Hstaged.
      * cbn. apply NoDup_singleton.
    + intros c' [Hc'| ->%list_elem_of_singleton]%elem_of_app.
      * destruct (Hstaged c' Hc') as [Hin Hnot].
        split; [by apply elem_of_union_l|done].
      * split; [by apply elem_of_union_r, elem_of_singleton|].
        intros Hin. by apply Hk, Htable.
    + intros x Hx. by apply elem_of_union_l, Htable.
Qed.

Lemma staged_inv_flush_if_full (env : Env) :
  preserves (staged_inv env) (flush_if_full env).
Proof.
  intros p Hp. destruct (flush_if_full_staged env p) as (Hs & He & _).
  unfold staged_inv. by rewrite Hs, He.
Qed.

Lemma staged_inv_start (env : Env) : staged_inv env (start env).
Proof.
  split; [constructor|]. split; [by intros c ?%elem_of_nil|].
  intros x Hx. by apply elem_of_known_codes.
Qed.

(** The records of the batches the driver has accepted when a run ends,
    however it ends, are staged records with distinct codes that were
    not in the table. *)
Lemma main_inserted_new (env : Env) :
  NoDup (map code (concat (inserted (main env fresh).2)))
  ∧ Forall (fun c => code c ∉ Classes env) (concat (inserted (main env fresh).2)).
Proof.
  destruct (catalog env) as [links|e] eqn:H.
  - pose proof (inv_traverse env (staged_inv env)
                  (fun r _ => staged_inv_logging env r)
                  (staged_inv_stage_if_new env) (staged_inv_flush_if_full env)
                  links H (staged_inv_start env)) as (Hnodup & Hstaged & _).
    pose proof (main_vars_flush env) as (_ & _ & _ & ->)%vars_eq.
    destruct (flush_remainder_keeps env (traverse env fresh).2)
      as (_ & _ & pending & Hp).
    rewrite Hp in Hnodup, Hstaged. split.
    + rewrite map_app in Hnodup. by apply NoDup_app in Hnodup as [? _].
    + apply Forall_forall. intros c Hc. apply Hstaged, elem_of_app. by left.
  - rewrite (main_abort env e H). cbn. split; constructor.
Qed.

(** X2.  The records of the batches the driver accepts have pairwise
    distinct codes, none of which is in the table read at start, however
    the run ends.  When the driver refuses no insert and no commit they
    are met in this order by the traversal, and every code the traversal
    meets is in the table or among the codes inserted when the run
    ends. *)
Theorem main_inserts_each_new_code_once (env : Env) :
  NoDup (map code (concat (inserted (main env fresh).2)))
  ∧ Forall (fun c => code c ∉ Classes env) (concat (inserted (main env fresh).2))
  ∧ (reliable env →
     concat (inserted (main env fresh).2) `sublist_of` traversal_records env
     ∧ Forall (fun c => code c ∈ Classes env
                        ∨ code c ∈ map code (concat (inserted (main env fresh).2)))
              (traversal_records env)).
Proof.
  destruct (main_inserted_new env) as [Hnodup Hnew].
  split; [done|]. split; [done|]. intros Hrel.
  destruct (main_inserted env Hrel) as (-> & _). split.
  - apply new_records_sublist.
  - apply Forall_forall. intros c Hc.
    destruct (new_records_cover (known_codes env) _ c Hc) as [Hk|Hn]; [|by right].
    left. by apply elem_of_known_codes.
Qed.

Lemma batches_nonempty_flush_if_full (env : Env) :
  preserves batches_nonempty (flush_if_full env).
Proof.
  intros p Hp. destruct (decide (length (batch p) < BATCH_SIZE)) as [Hlt|Hge].
  - by rewrite flush_if_full_below.
  - destruct (accepts env p (batch p)) eqn:Hok.
    + rewrite flush_if_full_reached by (done || lia).
      apply Forall_app. split; [done|]. constructor; [|constructor].
      intros E. rewrite E in Hge. cbn in Hge. unfold BATCH_SIZE in Hge. lia.
    + by rewrite flush_if_full_refused by (done || lia).
Qed.

Lemma batches_nonempty_stage_if_new (c : Course) :
  preserves batches_nonempty (stage_if_new c).
Proof.
  intros p Hp. unfold batches_nonempty.
  by destruct (stage_if_new_batch c p) as [-> _].
Qed.

Lemma main_batches_nonempty (env : Env) : batches_nonempty (main env fresh).2.
Proof.
  destruct (catalog env) as [links|e] eqn:H.
  - pose proof (inv_traverse env batches_nonempty (fun r _ p Hp => Hp)
                  batches_nonempty_stage_if_new (batches_nonempty_flush_if_full env)
                  links H ltac:(constructor)) as Ht.
    unfold batches_nonempty.
    pose proof (main_vars_flush env) as (_ & _ & _ & ->)%vars_eq.
    destruct (decide (batch (traverse env fresh).2 = [])) as [Hb|Hb].
    + by rewrite flush_remainder_empty.
    + destruct (accepts env (traverse env fresh).2 (batch (traverse env fresh).2))
        eqn:Hok.
      * rewrite flush_remainder_accepted by done. cbn.
        apply Forall_app. split; [done|]. by constructor.
      * by rewrite flush_remainder_refused.
  - rewrite (main_abort env e H). constructor.
Qed.

Lemma main_inserts_each_new_code_once_witness :
  reliable Fixture.small_env
  ∧ NoDup (map code (concat (inserted (main Fixture.small_env fresh).2)))
  ∧ concat (inserted (main Fixture.small_env fresh).2)
    `sublist_of` traversal_records Fixture.small_env.
Proof.
  assert (reliable Fixture.small_env) as Hrel by (intros p b; reflexivity).
  destruct (main_inserts_each_new_code_once Fixture.small_env)
    as (Hnodup & _ & Hrest).
  destruct (Hrest Hrel) as [Hsub _].
  exact (conj Hrel (conj Hnodup Hsub)).
Defined.

(** X3.  No batch the driver is given and accepts is empty, however the
    run goes; and in a run in which the driver refuses no insert and no
    commit, none holds more than 100 records. *)
Theorem inserted_batches_bounds (env : Env) :
  Forall (fun b => b ≠ []) (inserted (main env fresh).2)
  ∧ (reliable env →
     Forall (fun b => length b ≤ BATCH_SIZE) (inserted (main env fresh).2)).
Proof.
  split; [apply main_batches_nonempty|]. intros Hrel.
  destruct (main_locals env Hrel) as [_ ->].
  pose proof (stage_all_inv env (traversal_records env) (start env) Hrel
                (start_inv env)) as (Hlt & Hall & _).
  apply Forall_app. split.
  - eapply Forall_impl; [exact Hall|]. intros b Hb. cbn in Hb. lia.
  - destruct (batch _) as [|c b] eqn:E; [constructor|].
    constructor; [|constructor]. lia.
Qed.

Lemma inserted_batches_bounds_witness :
  reliable Fixture.small_env
  ∧ Forall (fun b => length b ≤ BATCH_SIZE)
      (inserted (main Fixture.small_env fresh).2).
Proof.
  assert (reliable Fixture.small_env) as Hrel by (intros p b; reflexivity).
  destruct (inserted_batches_bounds Fixture.small_env) as [_ Hle].
  exact (conj Hrel (Hle Hrel)).
Defined.

(** X4.  When a run in which the driver refuses no insert and no commit
    returns, the known codes are the codes of the table read at start and
    the codes of all records the traversal met: a code is made known when
    its record is staged, inserted or not. *)
Theorem main_known_codes (env : Env) (x : string) :
  reliable env →
  (main env fresh).1 = Return tt →
  x ∈ existing_codes (main env fresh).2
  ↔ x ∈ Classes env ∨ x ∈ map code (traversal_records env).
Proof.
  intros Hrel Hret. destruct (catalog env) as [links|e] eqn:H.
  - pose proof (main_vars_flush env) as (_ & _ & -> & _)%vars_eq.
    destruct (flush_remainder_keeps env (traverse env fresh).2) as (_ & -> & _).
    destruct (traverse_run env links Hrel H) as [_ (_ & _ & -> & _)%vars_eq].
    destruct (stage_all_staged env (traversal_records env) (start env) Hrel)
      as (_ & _ & He).
    rewrite He. cbn. by rewrite elem_of_known_codes.
  - by rewrite (main_abort env e H) in Hret.
Qed.

Lemma main_known_codes_witness :
  reliable Fixture.small_env
  ∧ (main Fixture.small_env fresh).1 = Return tt
  ∧ ("MATH 200" ∈ existing_codes (main Fixture.small_env fresh).2
     ↔ "MATH 200" ∈ Classes Fixture.small_env
       ∨ "MATH 200" ∈ map code (traversal_records Fixture.small_env)).
Proof.
  assert (reliable Fixture.small_env) as Hrel by (intros p b; reflexivity).
  exact (conj Hrel (conj eq_refl
           (main_known_codes Fixture.small_env "MATH 200" Hrel eq_refl))).
Defined.

(** ** Pages that fail, and pages without courses *)

Lemma for_each_cons {A} (x : A) (l : list A) (body : A → M unit) (p : Process) :
  for_each (x :: l) body p
  = match body x p with
    | (Return _, p') => for_each l body p'
    | (Raise e, p') => (Raise e, p')
    end.
Proof. done. Qed.

(** The course loop up to a block the parser raises on: it ends there
    with the error of the parser, unless an insert was refused on the
    way. *)
Lemma course_loop_raise (env : Env) (before rest : list bs4.Tag) (bad : bs4.Tag)
    (recs : list Course) (e : Exception) (p : Process) :
  Forall2 (fun b c => extract_course_info b = Return c) before recs →
  extract_course_info bad = Raise e →
  for_each (before ++ bad :: rest) (process_course env) p
  = (Raise match (stage_all env recs p).1 with
           | Return _ => e
           | Raise e' => e'
           end,
     (stage_all env recs p).2).
Proof.
  intros Hparsed Hbad. revert p.
  induction Hparsed as [|b c before recs Hb _ IH]; intros p.
  - cbn [app]. by rewrite for_each_cons, process_course_run, Hbad.
  - cbn [app]. rewrite for_each_cons, process_course_run, Hb, stage_all_step.
    destruct (flush_if_full env (stage_if_new c p).2) as [[[]|e'] p1]; [apply IH|done].
Qed.

(** X5.  When the parser raises on a block of a subject page, the records
    of the blocks before it stay staged (with the flushes they caused),
    the blocks after it are not visited, the error is logged for the
    subject and the subject loop goes on.  The error logged is that of
    the parser, unless the driver refused an insert on the way to the
    block: then the loop ended there, and the error logged is the
    driver's. *)
Theorem parse_failure_keeps_earlier_records (env : Env) (subject : string)
    (before rest : list bs4.Tag) (bad : bs4.Tag) (recs : list Course)
    (e : Exception) :
  fetch_courses env subject = Return (before ++ bad :: rest) →
  Forall2 (fun b c => extract_course_info b = Return c) before recs →
  extract_course_info bad = Raise e →
  subject_records env subject = recs
  ∧ ∀ p, process_subject env subject p
         = (Return tt,
            add_logs
              [error_processing_course subject
                 match (stage_all env recs p).1 with
                 | Return _ => e
                 | Raise e' => e'
                 end]
              (stage_all env recs p).2).
Proof.
  intros Hfetch Hparsed Hbad. split.
  - unfold subject_records. rewrite Hfetch. clear Hfetch.
    induction Hparsed as [|b c before recs Hb _ IH]; cbn [app parsed].
    + by rewrite Hbad.
    + by rewrite Hb, IH.
  - intros p. unfold process_subject. run. rewrite Hfetch.
    pose proof (course_loop_raise env before rest bad recs e p Hparsed Hbad) as Hloop.
    destruct (before ++ bad :: rest) as [|b bs] eqn:E.
    + by destruct before.
    + by rewrite Hloop.
Qed.

Lemma parse_failure_keeps_earlier_records_witness :
  extract_course_info Sample.untitled_block = Raise AttributeError
  ∧ subject_records Sample.untitled_block_env "/subj" = [Fixture.cs_101]
  ∧ process_subject Sample.untitled_block_env "/subj" (start Sample.untitled_block_env)
    = (Return tt,
       add_logs [error_processing_course "/subj" AttributeError]
         (stage_all Sample.untitled_block_env [Fixture.cs_101]
            (start Sample.untitled_block_env)).2).
Proof.
  assert (extract_course_info Sample.untitled_block = Raise AttributeError)
    as Hbad by reflexivity.
  destruct (parse_failure_keeps_earlier_records Sample.untitled_block_env "/subj"
              [Fixture.block "CS" "101" "Intro" "3 Credits"]
              [Fixture.block "MATH" "200" "Calculus" "1-3 Credits"]
              Sample.untitled_block [Fixture.cs_101] AttributeError
              eq_refl ltac:(by repeat constructor) Hbad)
    as [Hrecords Hrun].
  split; [done|]. split; [done|]. apply Hrun.
Defined.

(** X6.  When the request for a subject page fails, [fetch_courses]
    lets the request error through; [main] catches it at the subject,
    logs it, stages nothing for the subject and goes on with the next
    subject. *)
Theorem subject_request_failure (env : Env) (subject : string) :
  request_fails env subject →
  ∃ e, is_RequestException e = true
       ∧ fetch_courses env subject = Raise e
       ∧ (∀ p, process_subject env subject p
               = (Return tt, add_logs [error_processing_course subject e] p))
       ∧ (∀ rest p,
            for_each (subject :: rest) (process_subject env) p
            = for_each rest (process_subject env)
                (add_logs [error_processing_course subject e] p)).
Proof.
  intros Hfails.
  assert (∃ e, is_RequestException e = true ∧ fetch_courses env subject = Raise e)
    as (e & He & Hfetch).
  { unfold request_fails in Hfails. unfold fetch_courses, get_url.
    destruct (requests_get env subject) as [r|]; [|by exists ConnectionError].
    destruct (raise_for_status_cases r) as [H|H]; [done|].
    exists (HTTPError (status_code r)). cbn. by rewrite H. }
  assert (∀ p, process_subject env subject p
               = (Return tt, add_logs [error_processing_course subject e] p))
    as Hskip.
  { intros p. unfold process_subject. run. by rewrite Hfetch. }
  exists e. split; [done|]. split; [done|]. split; [done|].
  intros rest p. by rewrite for_each_cons, Hskip.
Qed.

Lemma subject_request_failure_witness :
  request_fails Sample.subject_gone_env "/gone"
  ∧ ∃ e, fetch_courses Sample.subject_gone_env "/gone" = Raise e
         ∧ for_each ["/gone"; "/subj"] (process_subject Sample.subject_gone_env)
             (start Sample.subject_gone_env)
           = for_each ["/subj"] (process_subject Sample.subject_gone_env)
               (add_logs [error_processing_course "/gone" e]
                  (start Sample.subject_gone_env)).
Proof.
  assert (request_fails Sample.subject_gone_env "/gone") as Hfails by done.
  destruct (subject_request_failure Sample.subject_gone_env "/gone" Hfails)
    as (e & _ & Hfetch & _ & Hnext).
  split; [done|]. exists e. split; [done|]. apply Hnext.
Defined.

(** X7.  When the request for a category page fails, [fetch_subject_links]
    returns the empty list: an error status is logged by its first
    handler as an HTTP error, a failure of the transport by its second
    handler; [main] goes on with the next category, nothing staged. *)
Theorem category_request_failure (env : Env) (category : string) :
  request_fails env category →
  ∀ p,
    fetch_subject_links env category p
    = (Return [],
       add_logs
         [match requests_get env category with
          | Some r =>
              error_http_fetching_subject_links category (HTTPError (status_code r))
          | None => error_fetching_subject_links category ConnectionError
          end] p)
    ∧ process_category env category p
      = (Return tt,
         add_logs
           [match requests_get env category with
            | Some r =>
                error_http_fetching_subject_links category (HTTPError (status_code r))
            | None => error_fetching_subject_links category ConnectionError
            end] p).
Proof.
  intros Hfails p.
  assert (∀ q, fetch_subject_links env category q
               = (Return [],
                  add_logs
                    [match requests_get env category with
                     | Some r =>
                         error_http_fetching_subject_links category
                           (HTTPError (status_code r))
                     | None => error_fetching_subject_links category ConnectionError
                     end] q)) as Hfetch.
  { intros q. unfold request_fails in Hfails.
    unfold fetch_subject_links, get_url. run.
    destruct (requests_get env category) as [r|]; [|done].
    destruct (raise_for_status_cases r) as [H|H]; [done|].
    cbn. by rewrite H. }
  split; [apply Hfetch|].
  unfold process_category, try_except.
  by rewrite (bind_run _ _ _ []), Hfetch by by rewrite Hfetch.
Qed.

Lemma category_request_failure_witness :
  request_fails Sample.categories_failing_env "/teapot"
  ∧ fetch_subject_links Sample.categories_failing_env "/teapot" fresh
    = (Return [],
       add_logs [error_http_fetching_subject_links "/teapot" (HTTPError 418)] fresh).
Proof.
  assert (request_fails Sample.categories_failing_env "/teapot") as Hfails
    by by vm_compute.
  split; [done|].
  apply (category_request_failure Sample.categories_failing_env "/teapot" Hfails fresh).
Defined.

(** X8.  A subject page whose container holds no course block is
    logged with a warning and changes no local. *)
Theorem subject_without_courses (env : Env) (subject : string) (r : Response)
    (sc_sccoursedescs : bs4.Tag) :
  served env subject r →
  bs4.find_class "div" "sc_sccoursedescs" (soup r) = Some sc_sccoursedescs →
  bs4.find_all_class "div" "courseblock" sc_sccoursedescs = [] →
  ∀ p, process_subject env subject p
       = (Return tt, add_logs [warning_no_courses subject] p).
Proof.
  intros [Hget Hstatus] Hfind Hnone p.
  unfold process_subject, fetch_courses, get_url. run.
  rewrite Hget. cbn. rewrite Hstatus. cbn. rewrite Hfind. cbn. by rewrite Hnone.
Qed.

Lemma subject_without_courses_witness :
  served Sample.no_courses_env "/subj" (Fixture.subject_page [])
  ∧ process_subject Sample.no_courses_env "/subj" fresh
    = (Return tt, add_logs [warning_no_courses "/subj"] fresh).
Proof.
  assert (served Sample.no_courses_env "/subj" (Fixture.subject_page []))
    as Hserved by by split.
  split; [done|].
  apply (subject_without_courses Sample.no_courses_env "/subj" _
           (Fixture.el "div" ["sc_sccoursedescs"] []) Hserved eq_refl eq_refl).
Defined.

(** ** The links of a category page *)

Arguments PyStr.startswith : simpl never.

(** A link without [href] ends the comprehension, unless [urljoin] has
    ended it before. *)
Lemma subject_links_of_raise (env : Env) (category : string) (lis : list bs4.Tag) :
  None ∈ anchor_hrefs lis →
  ∃ e, subject_links_of env category lis = Raise e
       ∧ (e = AttributeError ∨ e = ValueError)
       ∧ ((∀ h, is_Some (urljoin env category h)) → e = AttributeError).
Proof.
  unfold anchor_hrefs. induction lis as [|li lis IH]; cbn [omap list_omap subject_links_of].
  - by intros ?%elem_of_nil.
  - destruct (bs4.find "a" li) as [a|]; cbn; [|exact IH].
    destruct (bs4.href a) as [h|]; cbn; [|by exists AttributeError; auto].
    intros [?|Hin]%elem_of_cons; [done|].
    destruct (IH Hin) as (e & -> & He & Htotal).
    destruct (PyStr.startswith "#" h); cbn; [by exists e|].
    unfold py_urljoin. destruct (urljoin env category h) as [u|] eqn:Hu; cbn.
    + by exists e.
    + exists ValueError. split; [done|]. split; [by right|].
      intros Hall. destruct (Hall h) as [u Hu']. congruence.
Qed.

(** When every link has an [href], the comprehension joins those that
    are no same-page anchors, and raises when [urljoin] does. *)
Lemma subject_links_of_return (env : Env) (category : string)
    (lis : list bs4.Tag) (hs : list string) :
  anchor_hrefs lis = Some <$> hs →
  subject_links_of env category lis
  = match mapM (urljoin env category)
            (filter (fun h => PyStr.startswith "#" h = false) hs) with
    | Some links => Return links
    | None => Raise ValueError
    end.
Proof.
  unfold anchor_hrefs. revert hs.
  induction lis as [|li lis IH]; intros hs; cbn [omap list_omap subject_links_of].
  - destruct hs; [done|by intros [=]].
  - destruct (bs4.find "a" li) as [a|]; cbn [fmap option_fmap option_map];
      [|exact (IH hs)].
    destruct hs as [|h hs]; [by intros [=]|].
    cbn [fmap list_fmap]. intros [= -> Hrest].
    rewrite filter_cons, (IH hs Hrest).
    cbn. destruct (PyStr.startswith "#" h); cbn.
    + by rewrite decide_False.
    + rewrite decide_True by done. cbn. unfold py_urljoin.
      destruct (urljoin env category h) as [u|]; cbn; [|done].
      by destruct (mapM _ _).
Qed.

Lemma category_links_of_joined (env : Env) (base_url : string) (lis : list bs4.Tag) :
  category_links_of env base_url lis
  = match mapM (href_joined env base_url) (omap (bs4.find "a") lis) with
    | Some links => Return links
    | None => Raise ValueError
    end.
Proof.
  induction lis as [|li lis IH]; [done|]. cbn [category_links_of omap list_omap].
  destruct (bs4.find "a" li) as [a|]; cbn; [|exact IH].
  rewrite IH. unfold urljoin_href, href_joined, py_urljoin.
  destruct (bs4.href a) as [h|]; cbn.
  - destruct (urljoin env base_url h) as [u|]; cbn; [|done]. by destruct (mapM _ _).
  - by destruct (mapM _ _).
Qed.

(** X9.  One link without [href] among the items of the site map makes
    the whole category yield no subject: the error is caught, logged,
    and the list built so far is dropped.  The error logged is the
    [AttributeError] of that link, or the [ValueError] of a link before
    it that [urljoin] cannot parse. *)
Theorem link_without_href_empties_category (env : Env) (category : string)
    (r : Response) (az_sitemap : bs4.Tag) :
  served env category r →
  bs4.find_class "div" "az_sitemap" (soup r) = Some az_sitemap →
  None ∈ anchor_hrefs (sitemap_items az_sitemap) →
  ∃ e, (e = AttributeError ∨ e = ValueError)
       ∧ ((∀ h, is_Some (urljoin env category h)) → e = AttributeError)
       ∧ ∀ p, fetch_subject_links env category p
              = (Return [],
                 add_logs [error_fetching_subject_links category e] p).
Proof.
  intros [Hget Hstatus] Hfind Hnone.
  destruct (subject_links_of_raise env category _ Hnone) as (e & Hraise & He & Htotal).
  exists e. split; [done|]. split; [done|]. intros p.
  unfold fetch_subject_links, get_url. run.
  rewrite Hget. cbn. rewrite Hstatus. cbn. rewrite Hfind. cbn.
  fold (sitemap_items az_sitemap). rewrite Hraise. cbn.
  by destruct He as [-> | ->].
Qed.

Lemma link_without_href_empties_category_witness :
  served Sample.sitemaps_env "/bare-link" (Fixture.page [inr Sample.sitemap_bare_link])
  ∧ anchor_hrefs (sitemap_items Sample.sitemap_bare_link) = [Some "/subj"; None]
  ∧ fetch_subject_links Sample.sitemaps_env "/bare-link" fresh
    = (Return [],
       add_logs [error_fetching_subject_links "/bare-link" AttributeError] fresh).
Proof.
  assert (served Sample.sitemaps_env "/bare-link"
            (Fixture.page [inr Sample.sitemap_bare_link])) as Hserved by by split.
  assert (anchor_hrefs (sitemap_items Sample.sitemap_bare_link)
          = [Some "/subj"; None]) as Hhrefs by reflexivity.
  assert (None ∈ anchor_hrefs (sitemap_items Sample.sitemap_bare_link)) as Hnone
    by (rewrite Hhrefs; by right; left).
  split; [done|]. split; [done|].
  destruct (link_without_href_empties_category Sample.sitemaps_env "/bare-link" _
              Sample.sitemap_bare_link Hserved eq_refl Hnone)
    as (e & _ & Htotal & Hfetch).
  rewrite Hfetch, Htotal; [done|]. intros h. by exists h.
Defined.

(** X10.  When every link of the site map has an [href], the subject
    links are the hrefs that do not start with "#", joined to the URL of
    the category, in document order; items without link and same-page
    anchors give no subject.  When [urljoin] raises on one of those
    hrefs, the error is caught and logged, and the category yields no
    subject at all. *)
Theorem subject_links_skip_fragments (env : Env) (category : string)
    (r : Response) (az_sitemap : bs4.Tag) (hs : list string) :
  served env category r →
  bs4.find_class "div" "az_sitemap" (soup r) = Some az_sitemap →
  anchor_hrefs (sitemap_items az_sitemap) = Some <$> hs →
  ∀ p, fetch_subject_links env category p
       = match mapM (urljoin env category)
                 (filter (fun h => PyStr.startswith "#" h = false) hs) with
         | Some links =>
             (Return links,
              add_logs [info_fetched_subject_links (length links) category] p)
         | None =>
             (Return [],
              add_logs [error_fetching_subject_links category ValueError] p)
         end.
Proof.
  intros [Hget Hstatus] Hfind Hhrefs p.
  unfold fetch_subject_links, get_url. run.
  rewrite Hget. cbn. rewrite Hstatus. cbn. rewrite Hfind. cbn.
  fold (sitemap_items az_sitemap).
  rewrite (subject_links_of_return env category _ hs Hhrefs).
  by destruct (mapM _ _).
Qed.

Lemma subject_links_skip_fragments_witness :
  served Sample.sitemaps_env "/mixed" (Fixture.page [inr Sample.sitemap_mixed])
  ∧ anchor_hrefs (sitemap_items Sample.sitemap_mixed) = Some <$> ["#top"; "/subj"]
  ∧ fetch_subject_links Sample.sitemaps_env "/mixed" fresh
    = (Return ["/subj"], add_logs [info_fetched_subject_links 1 "/mixed"] fresh)
  ∧ fetch_subject_links Sample.malformed_category_env "/odd" fresh
    = (Return [], add_logs [error_fetching_subject_links "/odd" ValueError] fresh).
Proof.
  assert (served Sample.sitemaps_env "/mixed"
            (Fixture.page [inr Sample.sitemap_mixed])) as Hserved by by split.
  assert (served Sample.malformed_category_env "/odd"
            (Fixture.category_page ["/subj"; "http://["])) as Hodd by by split.
  split; [done|]. split; [reflexivity|]. split.
  - apply (subject_links_skip_fragments Sample.sitemaps_env "/mixed" _
             Sample.sitemap_mixed ["#top"; "/subj"] Hserved eq_refl eq_refl fresh).
  - apply (subject_links_skip_fragments Sample.malformed_category_env "/odd" _
             _ ["/subj"; "http://["] Hodd eq_refl eq_refl fresh).
Defined.




(** X18.  A link of the catalogue page that [urljoin] cannot parse ends
    the run at once: [main] raises the [ValueError], and nothing has been
    logged, staged or inserted, whatever the other categories hold. *)
Theorem malformed_catalog_link_aborts (env : Env) (r : Response) (links : bs4.Tag) :
  served env BASE_URL r →
  bs4.find_id "ul" "/university-course-descriptions/" (soup r) = Some links →
  mapM (href_joined env BASE_URL) (omap (bs4.find "a") (bs4.find_all "li" links))
  = None →
  catalog env = Raise ValueError
  ∧ traverse env fresh = (Raise ValueError, fresh)
  ∧ main env fresh = (Raise ValueError, fresh).
Proof.
  intros [Hget Hstatus] Hfind Hjoin.
  assert (catalog env = Raise ValueError) as H.
  { unfold catalog, fetch_category_links, get_url. run.
    rewrite Hget. cbn. rewrite Hstatus. cbn. rewrite Hfind. cbn.
    by rewrite category_links_of_joined, Hjoin. }
  split; [done|]. split; [by apply (traverse_abort env ValueError)|].
  by apply (main_abort env ValueError).
Qed.

Lemma malformed_catalog_link_aborts_witness :
  served Sample.malformed_catalog_env BASE_URL
    (Fixture.catalog_page ["/cat"; "http://["])
  ∧ main Sample.malformed_catalog_env fresh = (Raise ValueError, fresh).
Proof.
  assert (served Sample.malformed_catalog_env BASE_URL
            (Fixture.catalog_page ["/cat"; "http://["])) as Hserved by by split.
  split; [done|].
  apply (malformed_catalog_link_aborts Sample.malformed_catalog_env _ _
           Hserved eq_refl eq_refl).
Defined.

(** ** An insert that is refused *)

(** The course loop when the driver refuses a flush: the loop ends there
    with the driver's error, the batch full and not cleared. *)
Lemma course_loop_refused (env : Env) (courses : list bs4.Tag) (p : Process)
    (e : Exception) :
  (stage_all env (parsed courses) p).1 = Raise e →
  let p' := (stage_all env (parsed courses) p).2 in
  e = pyodbc_Error
  ∧ for_each courses (process_course env) p = (Raise pyodbc_Error, p')
  ∧ BATCH_SIZE ≤ length (batch p')
  ∧ accepts env p' (batch p') = false.
Proof.
  cbn zeta. revert p. induction courses as [|course courses IH]; intros p; [done|].
  cbn [parsed]. rewrite for_each_cons, process_course_run.
  destruct (extract_course_info course) as [c|e']; [|done].
  rewrite stage_all_step.
  destruct (decide (length (batch (stage_if_new c p).2) < BATCH_SIZE)) as [Hlt|Hge].
  - rewrite flush_if_full_below by done. apply IH.
  - destruct (accepts env (stage_if_new c p).2 (batch (stage_if_new c p).2)) eqn:Hok.
    + rewrite flush_if_full_reached by (done || lia). apply IH.
    + rewrite flush_if_full_refused by (done || lia). cbn.
      intros [= <-]. split; [done|]. split; [done|]. split; [lia|done].
Qed.

(** X19.  When the driver refuses a flush inside the course loop, the
    error does not end the run: it is caught at the subject and logged
    there, the blocks of the subject after that record are not visited,
    and the batch stays as it was, full and not cleared, for the subjects
    that follow. *)
Theorem refused_insert_is_swallowed (env : Env) (subject : string) (p : Process)
    (e : Exception) :
  (stage_all env (subject_records env subject) p).1 = Raise e →
  let p' := (stage_all env (subject_records env subject) p).2 in
  e = pyodbc_Error
  ∧ process_subject env subject p
    = (Return tt, add_logs [error_processing_course subject pyodbc_Error] p')
  ∧ BATCH_SIZE ≤ length (batch p')
  ∧ accepts env p' (batch p') = false
  ∧ ∀ rest, for_each (subject :: rest) (process_subject env) p
            = for_each rest (process_subject env)
                (add_logs [error_processing_course subject pyodbc_Error] p').
Proof.
  intros Hraise. cbn zeta.
  assert (e = pyodbc_Error
          ∧ process_subject env subject p
            = (Return tt,
               add_logs [error_processing_course subject pyodbc_Error]
                 (stage_all env (subject_records env subject) p).2)
          ∧ BATCH_SIZE ≤ length (batch (stage_all env (subject_records env subject) p).2)
          ∧ accepts env (stage_all env (subject_records env subject) p).2
              (batch (stage_all env (subject_records env subject) p).2) = false)
    as (He & Hrun & Hfull & Hno).
  { unfold subject_records in *. unfold process_subject. run.
    destruct (fetch_courses env subject) as [courses|e']; [|done].
    destruct (course_loop_refused env courses p e Hraise) as (-> & Hloop & Hfull & Hno).
    destruct courses as [|course courses]; [done|]. by rewrite Hloop. }
  do 4 (split; [done|]).
  intros rest. by rewrite for_each_cons, Hrun.
Qed.

Lemma refused_insert_is_swallowed_witness :
  (stage_all Sample.refusing_env (subject_records Sample.refusing_env "/a")
     (start Sample.refusing_env)).1 = Raise pyodbc_Error
  ∧ length (subject_records Sample.refusing_env "/a") = 150
  ∧ (process_subject Sample.refusing_env "/a" (start Sample.refusing_env)).1
    = Return tt
  ∧ BATCH_SIZE ≤ length (batch (stage_all Sample.refusing_env
                                  (subject_records Sample.refusing_env "/a")
                                  (start Sample.refusing_env)).2).
Proof.
  assert ((stage_all Sample.refusing_env (subject_records Sample.refusing_env "/a")
             (start Sample.refusing_env)).1 = Raise pyodbc_Error) as Hraise
    by (vm_compute; reflexivity).
  destruct (refused_insert_is_swallowed Sample.refusing_env "/a"
              (start Sample.refusing_env) pyodbc_Error Hraise)
    as (_ & Hrun & Hfull & _).
  split; [exact Hraise|]. split; [vm_compute; reflexivity|].
  split; [|exact Hfull]. exact (f_equal fst Hrun).
Defined.

(** ** The fields of a record *)

(** X12.  The parser returns a record exactly when the title bubble and,
    inside it, the code, title and credits divisions are found; the code
    is then the texts of the spans of the code division joined by single
    spaces, the name the stripped text of the title division.  When any
    of the four is missing the parser raises [AttributeError]. *)
Theorem parser_needs_the_title (course : bs4.Tag) :
  match bs4.find_class "div" "courseblocktitle_bubble" course with
  | Some details_div =>
      match bs4.find_class "div" "course_code" details_div,
            bs4.find_class "div" "course_codetitle" details_div,
            bs4.find_class "div" "course_credits" details_div with
      | Some course_code, Some course_codetitle, Some course_credits =>
          ∃ c, extract_course_info course = Return c
               ∧ code c
                 = PyStr.join " " (map bs4.get_text (bs4.find_all "span" course_code))
               ∧ name c = bs4.get_text_strip course_codetitle
               ∧ credits c = credit_hours_of (bs4.get_text_strip course_credits)
      | _, _, _ => extract_course_info course = Raise AttributeError
      end
  | None => extract_course_info course = Raise AttributeError
  end.
Proof.
  unfold extract_course_info.
  destruct (bs4.find_class "div" "courseblocktitle_bubble" course) as [d|]; cbn; [|done].
  destruct (bs4.find_class "div" "course_code" d) as [cc|]; cbn.
  - destruct (bs4.find_class "div" "course_codetitle" d) as [ct|]; cbn; [|done].
    destruct (bs4.find_class "div" "course_credits" d) as [cr|]; cbn; [|done].
    by eexists.
  - destruct (bs4.find_class "div" "course_codetitle" d) as [ct|]; [|done].
    by destruct (bs4.find_class "div" "course_credits" d).
Qed.

Lemma list_ascii_of_string_app (a b : string) :
  list_ascii_of_string (a +:+ b) = list_ascii_of_string a ++ list_ascii_of_string b.
Proof.
  induction a as [|c a IH]; [done|].
  change (c :: list_ascii_of_string (a +:+ b)
          = c :: (list_ascii_of_string a ++ list_ascii_of_string b)).
  by rewrite IH.
Qed.

Lemma only_plain_spaces_app (a b : string) :
  only_plain_spaces a → only_plain_spaces b → only_plain_spaces (a +:+ b).
Proof.
  unfold only_plain_spaces. rewrite list_ascii_of_string_app.
  intros Ha Hb. by apply Forall_app.
Qed.

Lemma only_plain_spaces_join (sep : string) (l : list string) :
  only_plain_spaces sep → Forall only_plain_spaces l →
  only_plain_spaces (PyStr.join sep l).
Proof.
  intros Hsep. induction 1 as [|x l Hx Hl IH]; [constructor|].
  destruct l as [|y l]; [done|].
  change (only_plain_spaces (x +:+ sep +:+ PyStr.join sep (y :: l))).
  by repeat apply only_plain_spaces_app.
Qed.

Lemma only_plain_spaces_re_sub (in_match : bool) (text : string) :
  only_plain_spaces (PyStr.re_sub_scan in_match text).
Proof.
  revert in_match. induction text as [|c s IH]; intros b; [constructor|].
  cbn [PyStr.re_sub_scan]. destruct (PyStr.ws_class c) eqn:Hc.
  - destruct b; [apply IH|]. constructor; [done|apply IH].
  - constructor; [|apply IH]. by rewrite Hc.
Qed.

Lemma only_plain_spaces_lstrip (s : string) :
  only_plain_spaces s → only_plain_spaces (PyStr.lstrip s).
Proof.
  induction s as [|c s IH]; [done|]. intros H. cbn [PyStr.lstrip].
  destruct (PyStr.isspace c); [|done]. apply IH. by inversion H.
Qed.

Lemma only_plain_spaces_rstrip (s : string) :
  only_plain_spaces s → only_plain_spaces (PyStr.rstrip s).
Proof.
  induction s as [|c s IH]; [done|]. intros H. cbn [PyStr.rstrip].
  inversion H as [|? ? Hc Hs]; subst. specialize (IH Hs).
  destruct (PyStr.rstrip s) as [|c' r].
  - destruct (PyStr.isspace c); [constructor|]. by constructor.
  - by constructor.
Qed.

(** X13.  In the attributes field of every record the only white-space
    character is the plain space: tabs, line breaks and no-break spaces
    of the page never reach the field. *)
Theorem attributes_white_space_is_plain (course : bs4.Tag) (c : Course) :
  extract_course_info course = Return c →
  only_plain_spaces (attributes c).
Proof.
  intros H. rewrite (extract_course_info_attributes _ _ H).
  destruct (bs4.find_class "div" "courseblockextra" course) as [x|].
  - apply only_plain_spaces_app.
    + apply only_plain_spaces_join.
      * repeat constructor; by intros [=].
      * apply Forall_forall. intros s (p & -> & _)%list_elem_of_fmap.
        apply only_plain_spaces_rstrip, only_plain_spaces_lstrip,
          only_plain_spaces_re_sub.
    + by repeat constructor.
  - repeat constructor; by intros [=].
Qed.

Lemma attributes_white_space_is_plain_witness :
  extract_course_info Fixture.course_with_attributes
  = Return Fixture.record_with_attributes
  ∧ only_plain_spaces (attributes Fixture.record_with_attributes).
Proof.
  split; [vm_compute; reflexivity|].
  apply (attributes_white_space_is_plain Fixture.course_with_attributes).
  vm_compute. reflexivity.
Defined.

Lemma rstrip_cons (c : ascii) (s : string) :
  PyStr.rstrip (String c s)
  = match PyStr.rstrip s with
    | EmptyString => if PyStr.isspace c then EmptyString else String c EmptyString
    | r => String c r
    end.
Proof. done. Qed.

Lemma rstrip_rstrip (s : string) : PyStr.rstrip (PyStr.rstrip s) = PyStr.rstrip s.
Proof.
  induction s as [|c s IH]; [done|]. rewrite rstrip_cons.
  destruct (PyStr.rstrip s) as [|c' r] eqn:Hr.
  - destruct (PyStr.isspace c) eqn:Hc; [done|]. rewrite rstrip_cons. cbn.
    by rewrite Hc.
  - by rewrite rstrip_cons, IH.
Qed.

Lemma rstrip_head (c : ascii) (s : string) :
  PyStr.rstrip (String c s) = "" ∨ ∃ r, PyStr.rstrip (String c s) = String c r.
Proof.
  rewrite rstrip_cons. destruct (PyStr.rstrip s) as [|c' r]; [|by right; eexists].
  destruct (PyStr.isspace c); [by left|by right; eexists].
Qed.

Lemma strip_tight (s : string) : PyStr.strip s ≠ "" → tight (PyStr.strip s).
Proof.
  unfold PyStr.strip. destruct (lstrip_spec s) as (_ & _ & _ & Hhd).
  destruct (PyStr.lstrip s) as [|c x]; [done|].
  intros Hne. destruct (rstrip_head c x) as [H|[r H]]; [done|].
  pose proof (rstrip_rstrip (String c x)) as Hidem.
  rewrite H in *. by split.
Qed.

Lemma rstrip_app (a e : string) :
  PyStr.rstrip e ≠ "" → PyStr.rstrip (a +:+ e) = a +:+ PyStr.rstrip e.
Proof.
  intros He. induction a as [|c a IH]; [done|].
  change (PyStr.rstrip (String c (a +:+ e)) = String c (a +:+ PyStr.rstrip e)).
  rewrite rstrip_cons, IH.
  destruct (a +:+ PyStr.rstrip e) eqn:E; [|done].
  destruct a; [|done]. by destruct He.
Qed.

Lemma join_tight (l : list string) :
  Forall tight l → l ≠ [] → tight (PyStr.join "" l).
Proof.
  induction 1 as [|x l Hx Hl IH]; [done|]. intros _.
  rewrite join_empty_cons. destruct l as [|y l].
  - by rewrite string_app_nil_r.
  - specialize (IH ltac:(done)).
    destruct x as [|c x]; [done|]. destruct Hx as [Hc Hx].
    change (PyStr.isspace c = false
            ∧ PyStr.rstrip (String c x +:+ PyStr.join "" (y :: l))
              = String c x +:+ PyStr.join "" (y :: l)).
    split; [done|].
    destruct (PyStr.join "" (y :: l)) as [|c' j] eqn:Hj; [done|].
    destruct IH as [_ IH]. rewrite rstrip_app; by rewrite IH.
Qed.

Lemma tight_strip (s : string) : tight s → PyStr.strip s = s.
Proof.
  destruct s as [|c s]; [done|]. intros [Hc Hs].
  unfold PyStr.strip. cbn [PyStr.lstrip]. by rewrite Hc.
Qed.

Lemma get_text_strip_stripped (t : bs4.Tag) :
  PyStr.strip (bs4.get_text_strip t) = bs4.get_text_strip t.
Proof.
  unfold bs4.get_text_strip.
  set (l := filter _ _).
  assert (Forall tight l) as Hl.
  { apply Forall_forall. intros e [Hne (s & -> & _)%list_elem_of_fmap]%list_elem_of_filter.
    by apply strip_tight. }
  destruct l as [|x l]; [done|]. by apply tight_strip, join_tight.
Qed.

(** X14.  The name and the description of every record carry no white
    space at either end: stripping them again changes nothing. *)
Theorem name_and_description_are_stripped (course : bs4.Tag) (c : Course) :
  extract_course_info course = Return c →
  PyStr.strip (name c) = name c ∧ PyStr.strip (description c) = description c.
Proof.
  intros H. split.
  - pose proof (extract_course_info_title course) as Ht. rewrite H in Ht.
    destruct Ht as (_ & _ & ct & _ & _ & _ & _ & _ & _ & -> & _).
    apply get_text_strip_stripped.
  - rewrite (extract_course_info_description _ _ H).
    destruct (bs4.find_class "div" "courseblockdesc" course) as [b|]; [|done].
    destruct (bs4.find "p" b) as [p|]; [|done].
    apply get_text_strip_stripped.
Qed.

Lemma name_and_description_are_stripped_witness :
  extract_course_info Fixture.course_plain_description
  = Return (mkCourse "CS 103" "Logic" "3" "Proofs and programs." " ")
  ∧ PyStr.strip "Logic" = "Logic"
  ∧ PyStr.strip "Proofs and programs." = "Proofs and programs.".
Proof.
  split; [vm_compute; reflexivity|].
  apply (name_and_description_are_stripped Fixture.course_plain_description
           (mkCourse "CS 103" "Logic" "3" "Proofs and programs." " ")).
  vm_compute. reflexivity.
Defined.

(** ** What the log reports *)

Lemma prepared_count_app (l l' : list LogRecord) :
  prepared_count (l ++ l') = prepared_count l + prepared_count l'.
Proof. unfold prepared_count. by rewrite List.filter_app, length_app. Qed.

Lemma logged_inserts_app (l l' : list LogRecord) :
  logged_inserts (l ++ l') = logged_inserts l ++ logged_inserts l'.
Proof. apply omap_app. Qed.

Lemma log_inv_quiet (r : LogRecord) : quiet r → preserves log_inv (logging r).
Proof.
  intros [Hprep Hins] p [Hc Hi]. unfold log_inv. cbn.
  rewrite prepared_count_app, logged_inserts_app, Hins, app_nil_r.
  unfold prepared_count at 2. cbn. rewrite Hprep. cbn. split; [lia|done].
Qed.

Lemma log_inv_stage_if_new (c : Course) : preserves log_inv (stage_if_new c).
Proof.
  intros p Hp. pose proof Hp as [Hc Hi].
  destruct (decide (code c ∈ existing_codes p)) as [Hk|Hk].
  - rewrite stage_if_new_known by done.
    apply (log_inv_quiet (info_already_in_database (code c) (name c))); by split.
  - rewrite stage_if_new_fresh by done. unfold log_inv. cbn.
    rewrite prepared_count_app, logged_inserts_app, app_nil_r. cbn.
    split; [unfold prepared_count at 2; cbn; lia|done].
Qed.

(** A refused insert leaves no record in the log, and no batch in the
    table. *)
Lemma log_inv_flush_if_full (env : Env) : preserves log_inv (flush_if_full env).
Proof.
  intros p [Hc Hi]. destruct (decide (length (batch p) < BATCH_SIZE)) as [Hlt|Hge].
  - by rewrite flush_if_full_below.
  - destruct (accepts env p (batch p)) eqn:Hok.
    + rewrite flush_if_full_reached by (done || lia). unfold log_inv. cbn.
      rewrite prepared_count_app, logged_inserts_app, map_app, Hi. cbn.
      split; [unfold prepared_count at 2; cbn; lia|done].
    + by rewrite flush_if_full_refused by (done || lia).
Qed.

Lemma log_inv_flush_remainder (env : Env) : preserves log_inv (flush_remainder env).
Proof.
  intros p [Hc Hi]. destruct (decide (batch p = [])) as [Hb|Hb].
  - by rewrite flush_remainder_empty.
  - destruct (accepts env p (batch p)) eqn:Hok.
    + rewrite flush_remainder_accepted by done. unfold log_inv. cbn.
      rewrite prepared_count_app, logged_inserts_app, map_app, Hi. cbn.
      split; [unfold prepared_count at 2; cbn; lia|done].
    + by rewrite flush_remainder_refused.
Qed.

Lemma log_inv_traverse (env : Env) : log_inv (traverse env fresh).2.
Proof.
  destruct (catalog env) as [links|e] eqn:H.
  - by apply (inv_traverse env log_inv log_inv_quiet log_inv_stage_if_new
                (log_inv_flush_if_full env) links H).
  - by rewrite (traverse_abort env e H).
Qed.

(** X15.  However a run ends, its log has as many "Prepared entry"
    records as the counter says, and its "Inserted" records are, in
    order, the batches the driver accepted, each with its size and the
    code of its last record: an insert that is refused leaves no such
    record.  When the run returns, the log ends with the total, which is
    the number of "Prepared entry" records before it. *)
Theorem log_reports_the_run (env : Env) :
  prepared_count (log (main env fresh).2) = counter (main env fresh).2
  ∧ logged_inserts (log (main env fresh).2)
    = map (fun b => (length b, last_code b)) (inserted (main env fresh).2)
  ∧ ((main env fresh).1 = Return tt →
     ∃ l, log (main env fresh).2 = l ++ [info_total_added (prepared_count l)]).
Proof.
  destruct (catalog env) as [links|e] eqn:H.
  - pose proof (log_inv_flush_remainder env _ (log_inv_traverse env)) as [Hc Hi].
    rewrite (main_unfold env links H).
    destruct (flush_remainder env (traverse env fresh).2) as [[[]|e] p]; cbn in *.
    + rewrite prepared_count_app, logged_inserts_app, app_nil_r.
      split; [unfold prepared_count at 2; cbn; lia|]. split; [done|].
      intros _. exists (log p). by rewrite Hc.
    + by repeat split.
  - rewrite (main_abort env e H). by repeat split.
Qed.

(** X16.  Idempotence of the run: after a run in which the driver
    refused no insert and no commit, a second run on the same site, with
    the table as the first run left it, stages and inserts nothing, and
    ends as the first one did. *)
Theorem second_run_stages_nothing (env : Env) :
  reliable env →
  counter (main (rerun env) fresh).2 = 0
  ∧ batch (main (rerun env) fresh).2 = []
  ∧ inserted (main (rerun env) fresh).2 = []
  ∧ (main (rerun env) fresh).1 = (main env fresh).1.
Proof.
  intros Hrel.
  destruct (known_traversal (rerun env) (rerun_known env Hrel)) as [_ Hend].
  rewrite catalog_rerun in Hend.
  destruct (catalog env) as [links|e] eqn:H.
  - destruct Hend as [Hret (? & ? & _ & ?)%vars_eq].
    destruct (main_run env links Hrel H) as [-> _]. by repeat split.
  - by rewrite Hend, (main_abort env e H).
Qed.

Lemma second_run_stages_nothing_witness :
  reliable Fixture.small_env
  ∧ inserted (main Fixture.small_env fresh).2 = [[Fixture.math_200]]
  ∧ counter (main (rerun Fixture.small_env) fresh).2 = 0
  ∧ inserted (main (rerun Fixture.small_env) fresh).2 = [].
Proof.
  assert (reliable Fixture.small_env) as Hrel by (intros p b; reflexivity).
  destruct (second_run_stages_nothing Fixture.small_env Hrel)
    as (Hcounter & _ & Hinserted & _).
  exact (conj Hrel (conj eq_refl (conj Hcounter Hinserted))).
Defined.
